(** * page-loader: a shallow embedding of [src/src/page-loader.js]

    The module downloads a web page, scans it for same-host resources
    ([img], stylesheet [link], [script], [a href="*.html"]), fetches them
    concurrently with Listr, rewrites the markup of the successful ones and
    saves the page.  The embedding follows the default export of the file
    (lines 1-212), then the second module of the file (lines 214-395),
    whose named export [downloadPage] the command line
    ([src/bin/page-loader.js]) calls.

    External capabilities are modelled as follows.
    - The WHATWG [URL] class is a parameter [new_URL] of the sections below,
      so that the theorems hold for every URL parser; a concrete parser
      covering the ASCII part of the WHATWG algorithm is given in
      [Module Whatwg] to evaluate the program on concrete inputs.
    - The network is a function [net] from request URL to response;
      axios follows redirects, so [net] gives the final response.
    - The file system is a [gmap] from normalized paths to nodes.
    - cheerio's parsed document is the list of its elements in document
      order; serialization and prettier keep attribute values, so the
      saved page is stored as that element list.
    - The completion order of the concurrent Listr tasks is an explicit
      scheduling argument [order]. *)

From Stdlib Require Import String Ascii List Arith Lia Permutation.
From stdpp Require Import base gmap strings list.

Import ListNotations.

Infix "+++" := String.append (right associativity, at level 60).

(* ------------------------------------------------------------------ *)
(** ** String helpers (the parts of [String.prototype] the code uses) *)

(** [s.endsWith(suf)] *)
Definition ends_with (s suf : string) : bool :=
  let n := String.length s in
  let m := String.length suf in
  (m <=? n) && String.eqb (String.substring (n - m) m s) suf.

(** [s.startsWith(p)] *)
Definition starts_with (s p : string) : bool := String.prefix p s.

(** [s.includes(sub)] *)
Fixpoint includes (s sub : string) : bool :=
  String.prefix sub s ||
  match s with
  | EmptyString => false
  | String _ s' => includes s' sub
  end.

(** [s.replace(/c/g, d)] for a one-character pattern. *)
Fixpoint replace_all_char (c d : ascii) (s : string) : string :=
  match s with
  | EmptyString => EmptyString
  | String x s' =>
      String (if Ascii.eqb x c then d else x) (replace_all_char c d s')
  end.

(** [s.replace(/-+$/, '')]: the leftmost match of [-+$] is the maximal
    run of hyphens at the end of the string. *)
Fixpoint all_hyphens (s : string) : bool :=
  match s with
  | EmptyString => true
  | String x s' => Ascii.eqb x "-"%char && all_hyphens s'
  end.

Fixpoint strip_trailing_hyphens (s : string) : string :=
  match s with
  | EmptyString => EmptyString
  | String x s' =>
      if Ascii.eqb x "-"%char && all_hyphens s' then EmptyString
      else String x (strip_trailing_hyphens s')
  end.

(** [s.replace(pat, rep)] with a string pattern: first occurrence only. *)
Fixpoint replace_first (s pat rep : string) : string :=
  if String.prefix pat s
  then rep +++ String.substring (String.length pat) (String.length s) s
  else match s with
       | EmptyString => EmptyString
       | String x s' => String x (replace_first s' pat rep)
       end.

Definition is_alnum (c : ascii) : bool :=
  let n := nat_of_ascii c in
  ((48 <=? n) && (n <=? 57)) || ((65 <=? n) && (n <=? 90))
  || ((97 <=? n) && (n <=? 122)).

Fixpoint forall_chars (p : ascii -> bool) (s : string) : bool :=
  match s with
  | EmptyString => true
  | String x s' => p x && forall_chars p s'
  end.

(** [s.match(/\.([a-z0-9]+)$/i)], returning the captured group: the
    leftmost dot followed by one or more ASCII letters or digits up to the
    end of the string. *)
Fixpoint ext_match (s : string) : option string :=
  match s with
  | EmptyString => None
  | String x s' =>
      if Ascii.eqb x "."%char && negb (String.eqb s' "") && forall_chars is_alnum s'
      then Some s'
      else ext_match s'
  end.

(** [s.replace(/[^a-zA-Z0-9]/g, '-')] *)
Fixpoint replace_nonalnum (s : string) : string :=
  match s with
  | EmptyString => EmptyString
  | String x s' => String (if is_alnum x then x else "-"%char) (replace_nonalnum s')
  end.

(** [s.replace(/-+/g, '-')]; [prev] tells whether the character before
    was a hyphen of the current run. *)
Fixpoint collapse_hyphens (prev : bool) (s : string) : string :=
  match s with
  | EmptyString => EmptyString
  | String x s' =>
      if Ascii.eqb x "-"%char then
        if prev then collapse_hyphens true s'
        else String "-"%char (collapse_hyphens true s')
      else String x (collapse_hyphens false s')
  end.

(** [s.replace(/^-|-$/g, '')]: a leading hyphen, then a trailing one. *)
Definition trim_hyphen (s : string) : string :=
  let s1 := match s with
            | String x s' => if Ascii.eqb x "-"%char then s' else s
            | EmptyString => s
            end in
  if ends_with s1 "-" then String.substring 0 (String.length s1 - 1) s1 else s1.

(** The shape of a name the chain above leaves: ASCII letters, digits and
    hyphens, never two hyphens in a row, no hyphen at either end. *)
Definition hd_is_hyphen (s : string) : bool :=
  match s with String x _ => Ascii.eqb x "-"%char | EmptyString => false end.

Fixpoint no_double_hyphen (s : string) : bool :=
  match s with
  | EmptyString => true
  | String x s' => negb (Ascii.eqb x "-"%char && hd_is_hyphen s') && no_double_hyphen s'
  end.

Definition alnum_or_hyphen (c : ascii) : bool := is_alnum c || Ascii.eqb c "-"%char.

Definition sanitized (s : string) : bool :=
  forall_chars alnum_or_hyphen s && no_double_hyphen s
  && negb (starts_with s "-") && negb (ends_with s "-").

(** A string without a path separator. *)
Definition no_slash (s : string) : bool := forall_chars (fun c => negb (Ascii.eqb c "/"%char)) s.

(** A path segment [normalizeString] keeps as it is. *)
Definition plain_segment (s : string) : bool :=
  negb (String.eqb s "") && negb (String.eqb s ".") && negb (String.eqb s "..") && no_slash s.

(** Decimal rendering of a number, as in a template literal. *)
Fixpoint digits_rev (fuel n : nat) : list ascii :=
  match fuel with
  | 0 => []
  | S f => ascii_of_nat (48 + n mod 10) ::
            (if n <? 10 then [] else digits_rev f (n / 10))
  end.

Definition nat_to_string (n : nat) : string :=
  string_of_list_ascii (rev (digits_rev (S n) n)).

(* ------------------------------------------------------------------ *)
(** ** POSIX [path] (Node's [path.join], [path.basename], [path.dirname]) *)

Module Path.

(** Split on ['/']. *)
Fixpoint split_slash_go (cur : string) (s : string) : list string :=
  match s with
  | EmptyString => [cur]
  | String x s' =>
      if Ascii.eqb x "/"%char then cur :: split_slash_go "" s'
      else split_slash_go (cur +++ String x EmptyString) s'
  end.

Definition split_slash (s : string) : list string := split_slash_go "" s.

(** [normalizeString]: drop empty and ["."] segments, resolve [".."]. *)
Definition norm_step (allow_above : bool) (stack : list string) (seg : string)
  : list string :=
  if String.eqb seg "" || String.eqb seg "." then stack
  else if String.eqb seg ".." then
    match stack with
    | top :: rest => if String.eqb top ".." then
                       (if allow_above then ".." :: stack else stack)
                     else rest
    | [] => if allow_above then [".."] else []
    end
  else seg :: stack.

Definition normalize_string (p : string) (allow_above : bool) : string :=
  String.concat "/" (rev (fold_left (norm_step allow_above) (split_slash p) [])).

(** [path.normalize] *)
Definition normalize (p : string) : string :=
  if String.eqb p "" then "." else
  let abs := starts_with p "/" in
  let trailing := ends_with p "/" in
  let p' := normalize_string p (negb abs) in
  if String.eqb p' "" then
    (if abs then "/" else if trailing then "./" else ".")
  else
    let p'' := if trailing then p' +++ "/" else p' in
    if abs then "/" +++ p'' else p''.

(** [path.join(a, b)] *)
Definition join (a b : string) : string :=
  let joined :=
    if String.eqb a "" then b
    else if String.eqb b "" then a
    else a +++ "/" +++ b in
  if String.eqb joined "" then "." else normalize joined.

Fixpoint last_nonempty (l : list string) (acc : string) : string :=
  match l with
  | [] => acc
  | x :: l' => last_nonempty l' (if String.eqb x "" then acc else x)
  end.

(** [path.basename(p)]: the last non-empty segment. *)
Definition basename (p : string) : string := last_nonempty (split_slash p) "".

(** [path.dirname(p)] on a normalized path. *)
Definition dirname (p : string) : string :=
  let segs := filter (fun s => negb (String.eqb s "")) (split_slash p) in
  let abs := starts_with p "/" in
  match segs with
  | [] => if abs then "/" else "."
  | _ =>
      let parent := removelast segs in
      match parent with
      | [] => if abs then "/" else "."
      | _ => (if abs then "/" else "") +++ String.concat "/" parent
      end
  end.


(** The state [preDotState] of Node's [path.extname]: [0], [1] or [-1]. *)
Inductive pre_dot := PreDot0 | PreDot1 | PreDotNeg.

(** The backward scan of [path.extname]: [l] holds the characters left of
    the scan position, nearest first; the result is
    [(startDot, end, preDotState, startPart)], [None] for [-1]. The flag
    [matchedSlash] of the source is [end === -1]. *)
Fixpoint extname_go (l : list ascii) (startDot endp : option nat) (pre : pre_dot)
  : option nat * option nat * pre_dot * nat :=
  match l with
  | [] => (startDot, endp, pre, 0)
  | c :: l' =>
      let i := length l' in
      if Ascii.eqb c "/"%char then
        match endp with
        | Some _ => (startDot, endp, pre, S i)
        | None => extname_go l' startDot endp pre
        end
      else
        let endp' := match endp with None => Some (S i) | Some e => Some e end in
        if Ascii.eqb c "."%char then
          match startDot with
          | None => extname_go l' (Some i) endp' pre
          | Some _ => extname_go l' startDot endp' PreDot1
          end
        else
          match startDot with
          | Some _ => extname_go l' startDot endp' PreDotNeg
          | None => extname_go l' startDot endp' pre
          end
  end.

(** [path.extname(p)] *)
Definition extname (p : string) : string :=
  match extname_go (rev (list_ascii_of_string p)) None None PreDot0 with
  | (Some startDot, Some e, pre, startPart) =>
      match pre with
      | PreDot0 => ""
      | PreDot1 =>
          if (startDot =? e - 1) && (startDot =? startPart + 1) then ""
          else String.substring startDot (e - startDot) p
      | PreDotNeg => String.substring startDot (e - startDot) p
      end
  | _ => ""
  end.

End Path.

(* ------------------------------------------------------------------ *)
(** ** Data: URLs, markup, file system, network, errors *)

(** The fields of a WHATWG [URL] object the code reads. [protocol]
    includes the colon; [query] and [fragment] are [None] when absent. *)
Record URL := mkURL {
  protocol : string;
  has_authority : bool;
  userinfo : string;
  hostname : string;
  port : string;
  pathname : string;
  query : option string;
  fragment : option string
}.

(** [url.toString()] / [url.href] *)
Definition href (u : URL) : string :=
  protocol u +++
  (if has_authority u then
     "//" +++ (if String.eqb (userinfo u) "" then "" else userinfo u +++ "@")
     +++ hostname u +++ (if String.eqb (port u) "" then "" else ":" +++ port u)
   else "")
  +++ pathname u
  +++ match query u with Some q => "?" +++ q | None => "" end
  +++ match fragment u with Some f => "#" +++ f | None => "" end.

(** A markup element as cheerio exposes it: tag name and attributes. *)
Record element := mkElement { tag : string; attrs : list (string * string) }.

(** [$(el).attr(name)]: the first attribute of that name. *)
Fixpoint attr_lookup (l : list (string * string)) (a : string) : option string :=
  match l with
  | [] => None
  | (k, v) :: l' => if String.eqb k a then Some v else attr_lookup l' a
  end.

Definition get_attr (e : element) (a : string) : option string := attr_lookup (attrs e) a.

Fixpoint attr_update (l : list (string * string)) (a v : string) : list (string * string) :=
  match l with
  | [] => [(a, v)]
  | (k, x) :: l' => if String.eqb k a then (k, v) :: l' else (k, x) :: attr_update l' a v
  end.

(** [$(el).attr(name, value)] *)
Definition set_attr (e : element) (a v : string) : element :=
  mkElement (tag e) (attr_update (attrs e) a v).

(** Response bodies and file contents: a markup document (its elements in
    document order) or raw bytes. *)
Inductive content :=
| Doc (els : list element)
| Bytes (s : string).

(** [cheerio.load(data)]: raw text without markup has no elements. *)
Definition cheerio_load (c : content) : list element :=
  match c with Doc d => d | Bytes _ => [] end.

Inductive node :=
| Dir (writable : bool)
| File (writable : bool) (data : content).

(** The final response of a GET (after redirects) or a transport error. *)
Inductive response :=
| Http (status : nat) (data : content)
| NetError (code : string) (message : string).

(** A thrown JavaScript error: [name], [message], [code] and, for axios
    status errors, [error.response.status]. *)
Record jserror := mkError {
  e_name : string;
  e_message : string;
  e_code : option string;
  e_status : option nat
}.

(** The values a promise of the module resolves with. *)
#[warnings="-register-all"]
Inductive jsval :=
| JsString (s : string)
| JsObject (fields : list (string * jsval)).

Record World := mkWorld {
  fs : gmap string node;
  reqs : list string   (** the URLs passed to [axios.get], one per call, in order;
                           redirects axios follows happen inside a call *)
}.

(** Promise chains as a state and error monad: the world persists when a
    step rejects. *)
Definition M (A : Type) : Type := World -> World * (jserror + A).

Definition ret {A} (a : A) : M A := fun w => (w, inr a).
Definition throw {A} (e : jserror) : M A := fun w => (w, inl e).
Definition bind {A B} (m : M A) (k : A -> M B) : M B :=
  fun w => match m w with
           | (w', inl e) => (w', inl e)
           | (w', inr a) => k a w'
           end.
(** [.catch(handler)] *)
Definition catch {A} (m : M A) (h : jserror -> M A) : M A :=
  fun w => match m w with
           | (w', inl e) => h e w'
           | r => r
           end.

Notation "'let*' x := m 'in' k" := (bind m (fun x => k))
  (at level 200, x name, m at level 100, k at level 200).

Fixpoint mapM {A B} (f : A -> M B) (l : list A) : M (list B) :=
  match l with
  | [] => ret []
  | x :: l' => let* y := f x in let* ys := mapM f l' in ret (y :: ys)
  end.

Fixpoint foldM {A B} (f : B -> A -> M B) (l : list A) (b : B) : M B :=
  match l with
  | [] => ret b
  | x :: l' => let* b' := f b x in foldM f l' b'
  end.

(* ------------------------------------------------------------------ *)
(** ** [fs.promises] *)

Definition fs_error (code syscall p : string) : jserror :=
  let descr :=
    if String.eqb code "ENOENT" then "no such file or directory"
    else if String.eqb code "EACCES" then "permission denied"
    else if String.eqb code "ENOTDIR" then "not a directory"
    else if String.eqb code "EEXIST" then "file already exists"
    else "illegal operation on a directory" in
  mkError "Error" (code +++ ": " +++ descr +++ ", " +++ syscall +++ " '" +++ p +++ "'")
          (Some code) None.

Definition node_writable (n : node) : bool :=
  match n with Dir w => w | File w _ => w end.

Definition set_fs (w : World) (f : gmap string node) : World := mkWorld f (reqs w).

(** The kernel's path walk for [access(2)]: from the directory [cur]
    (node [n]) through the components [comps]. Each component needs the
    node reached so far to be a directory ([ENOTDIR] otherwise, which also
    covers a trailing slash after a file); an empty component stays where
    it is; any other one is looked up below the current directory
    ([ENOENT] when missing; ["."] and [".."] by [path.join]). At the end
    the node must be writable ([EACCES]). Directories grant search
    permission. *)
Fixpoint access_walk (f : gmap string node) (cur : string) (n : node)
    (comps : list string) : option string :=
  match comps with
  | [] => if node_writable n then None else Some "EACCES"
  | c :: cs =>
      match n with
      | File _ _ => Some "ENOTDIR"
      | Dir _ =>
          if String.eqb c "" then access_walk f cur n cs
          else
            let next := Path.join cur c in
            match f !! next with
            | None => Some "ENOENT"
            | Some m => access_walk f next m cs
            end
      end
  end.

(** The error code of [access(p, W_OK)], [None] on success. The map holds
    a tree under normalized keys (absolute ones below ["/"], relative ones
    below the working directory ["."]), so a key present in it is reached
    by the walk; a path that is not a key (a trailing slash, ["//"],
    ["."], [".."], a missing or non-directory component) is walked. The
    empty path is [ENOENT]. *)
Definition access_error (f : gmap string node) (p : string) : option string :=
  match f !! p with
  | Some n => if node_writable n then None else Some "EACCES"
  | None =>
      if String.eqb p "" then Some "ENOENT"
      else
        let start := if starts_with p "/" then "/" else "." in
        match f !! start with
        | None => Some "ENOENT"
        | Some n => access_walk f start n (Path.split_slash p)
        end
  end.

(** [fs.access(p, fs.constants.W_OK)] *)
Definition fs_access (p : string) : M unit := fun w =>
  match access_error (fs w) p with
  | None => (w, inr tt)
  | Some code => (w, inl (fs_error code "access" p))
  end.

(** Why [fs.writeFile(p, _)] fails in a file system, if it does. *)
Definition write_error (f : gmap string node) (p : string) : option string :=
  match f !! p with
  | Some (Dir _) => Some "EISDIR"
  | Some (File wr _) => if wr then None else Some "EACCES"
  | None =>
      match f !! Path.dirname p with
      | Some (Dir true) => None
      | Some (Dir false) => Some "EACCES"
      | Some (File _ _) => Some "ENOTDIR"
      | None => Some "ENOENT"
      end
  end.

(** [fs.writeFile(p, data)] *)
Definition fs_writeFile (p : string) (c : content) : M unit := fun w =>
  match write_error (fs w) p with
  | None => (set_fs w (<[p := File true c]> (fs w)), inr tt)
  | Some code => (w, inl (fs_error code "open" p))
  end.

(** [fs.mkdir(p, {recursive: true})] as Node runs it: try [p]; an
    existing directory is success; a missing parent is created first
    (recursively), then [p] is tried again. *)
Fixpoint mkdirp_go (fuel : nat) (target p : string) : M unit := fun w =>
  match fs w !! p with
  | Some (Dir _) => (w, inr tt)
  | Some (File _ _) =>
      (w, inl (fs_error (if String.eqb p target then "EEXIST" else "ENOTDIR") "mkdir" target))
  | None =>
      match fs w !! Path.dirname p with
      | Some (Dir true) => (set_fs w (<[p := Dir true]> (fs w)), inr tt)
      | Some (Dir false) => (w, inl (fs_error "EACCES" "mkdir" target))
      | Some (File _ _) => (w, inl (fs_error "ENOTDIR" "mkdir" target))
      | None =>
          match fuel with
          | 0 => (w, inl (fs_error "ENOENT" "mkdir" target))
          | S f =>
              match mkdirp_go f target (Path.dirname p) w with
              | (w1, inl e) => (w1, inl e)
              | (w1, inr _) => mkdirp_go f target p w1
              end
          end
      end
  end.

Definition fs_mkdir_p (p : string) : M unit :=
  mkdirp_go (length (Path.split_slash p)) p p.

(* ------------------------------------------------------------------ *)
(** ** The program *)

Section PageLoader.

(** [new URL(input, base)]; [None] when the constructor throws. *)
Variable new_URL : string -> option URL -> option URL.

(** The network: final response to a GET of a URL. *)
Variable net : string -> response.

(** [new URL(input, baseString)] *)
Definition new_URL_with_base (input base : string) : option URL :=
  match new_URL base None with
  | Some b => new_URL input (Some b)
  | None => None
  end.

Definition invalid_url_error : jserror :=
  mkError "TypeError" "Invalid URL" (Some "ERR_INVALID_URL") None.

(** [isLocalResource] (lines 30-38): the try/catch turns a throwing
    constructor into [false]. *)
Definition isLocalResource (baseUrl resourceUrl : string) : bool :=
  match new_URL baseUrl None with
  | None => false
  | Some base =>
      match new_URL resourceUrl (Some base) with
      | None => false
      | Some resource => String.eqb (hostname resource) (hostname base)
      end
  end.

(** [generateFileName] (lines 40-61); [None] when [new URL] throws. *)
Definition generateFileName (urlString : string) (isResource : bool) : option string :=
  match new_URL urlString None with
  | None => None
  | Some url =>
      let name := replace_all_char "." "-" (hostname url)
                  +++ strip_trailing_hyphens (replace_all_char "/" "-" (pathname url)) in
      if negb isResource then
        Some (if ends_with name ".html" then name else name +++ ".html")
      else
        match ext_match (pathname url) with
        | Some extension => Some (name +++ "." +++ extension)
        | None => Some (name +++ ".html")
        end
  end.

(** A call of [generateFileName] inside a promise chain. *)
Definition generateFileName_m (urlString : string) (isResource : bool) : M string :=
  match generateFileName urlString isResource with
  | Some n => ret n
  | None => throw invalid_url_error
  end.

(** axios: the status code of a status error, [ERR_BAD_REQUEST] for 4xx
    and [ERR_BAD_RESPONSE] for 5xx. For any other status it depends on
    the axios release, which the sources do not pin: [settle] of axios
    1.x up to 1.7 indexes [[ERR_BAD_REQUEST, ERR_BAD_RESPONSE]] by
    [floor(status/100) - 4] and sets none (modelled here), later releases
    set [ERR_BAD_RESPONSE]. *)
Definition axios_status_code (s : nat) : option string :=
  if s / 100 =? 4 then Some "ERR_BAD_REQUEST"
  else if s / 100 =? 5 then Some "ERR_BAD_RESPONSE"
  else None.

(** axios's default [validateStatus]. *)
Definition default_validate (s : nat) : bool := (200 <=? s) && (s <? 300).

(** Calling [axios.get]: axios parses the URL, then the request goes out
    and the call is logged. The outcome of the call, after any redirects
    axios follows, is [net url]. *)
Definition axios_issue (url : string) : M unit := fun w =>
  match new_URL url None with
  | None => (w, inl invalid_url_error)
  | Some _ => (mkWorld (fs w) (reqs w ++ [url]), inr tt)
  end.

(** Settling a GET: the response, checked by [validateStatus]. *)
Definition axios_settle (validate : nat -> bool) (url : string) : M content :=
  match net url with
  | NetError code msg => throw (mkError "Error" msg (Some code) None)
  | Http s d =>
      if validate s then ret d
      else throw (mkError "AxiosError" ("Request failed with status code " +++ nat_to_string s)
                          (axios_status_code s) (Some s))
  end.

(** [axios.get(url, {validateStatus})], resolving with [response.data]. *)
Definition axios_get (validate : nat -> bool) (url : string) : M content :=
  let* _ := axios_issue url in axios_settle validate url.

(** *** Resource scanning (lines 95-124) *)

(** [el[attr]] *)
Definition has_attr (e : element) (a : string) : bool :=
  match get_attr e a with Some _ => true | None => false end.

Definition sel_img (e : element) : bool :=
  String.eqb (tag e) "img" && has_attr e "src".
(** [toLowerCase] on ASCII letters. *)
Definition ascii_lower (c : ascii) : ascii :=
  if (65 <=? nat_of_ascii c) && (nat_of_ascii c <=? 90)
  then ascii_of_nat (nat_of_ascii c + 32) else c.
Definition to_lower (s : string) : string :=
  string_of_list_ascii (map ascii_lower (list_ascii_of_string s)).

(** [link[rel="stylesheet"][href]]. In an HTML document css-select
    compares the value of [rel] case-insensitively ([rel] is one of its
    case-insensitive attributes: the value is lower-cased before the
    comparison); no character outside ASCII lower-cases into one of
    ["stylesheet"]. The parser lower-cases tag and attribute names. *)
Definition sel_link (e : element) : bool :=
  String.eqb (tag e) "link" && has_attr e "href"
  && match get_attr e "rel" with
     | Some r => String.eqb (to_lower r) "stylesheet"
     | None => false
     end.
Definition sel_script (e : element) : bool :=
  String.eqb (tag e) "script" && has_attr e "src".
(** [a[href$=".html"], a[href*=".html?"]] *)
Definition sel_a (e : element) : bool :=
  String.eqb (tag e) "a"
  && match get_attr e "href" with
     | Some h => ends_with h ".html" || includes h ".html?"
     | None => false
     end.

Definition tagsToProcess : list ((element -> bool) * string) :=
  [(sel_img, "src"); (sel_link, "href"); (sel_script, "src"); (sel_a, "href")].

(** An entry of [resources]: the main page pushed when [baseUrl] ends in
    [.html], or an element (by document index) with its URL and attribute. *)
Inductive resource :=
| MainPage
| ElemRes (idx : nat) (url : string) (attr : string).

(** [$(selector).each(...)] for one selector, from document index [i]. *)
Fixpoint scan_from (baseUrl : string) (sel : element -> bool) (attr : string)
    (i : nat) (els : list element) : list resource :=
  match els with
  | [] => []
  | e :: els' =>
      let rest := scan_from baseUrl sel attr (S i) els' in
      if sel e then
        match get_attr e attr with
        | Some resourceUrl =>
            if negb (String.eqb resourceUrl "") && isLocalResource baseUrl resourceUrl
            then ElemRes i resourceUrl attr :: rest
            else rest
        | None => rest
        end
      else rest
  end.

Definition scan_resources (dom : list element) (baseUrl : string) : list resource :=
  (if ends_with baseUrl ".html" then [MainPage] else [])
  ++ flat_map (fun '(sel, attr) => scan_from baseUrl sel attr 0 dom) tagsToProcess.

Definition resource_url (baseUrl : string) (r : resource) : string :=
  match r with MainPage => baseUrl | ElemRes _ u _ => u end.

(** *** [downloadResource] (lines 63-89) *)

(** Its synchronous part: [absoluteUrl], [filename] and [filepath]; [None]
    when [new URL] throws there. *)
Definition dr_prepare (baseUrl resourceUrl outputDir : string)
  : option (string * string * string) :=
  match new_URL_with_base resourceUrl baseUrl with
  | None => None
  | Some u =>
      let absoluteUrl := href u in
      match generateFileName absoluteUrl true with
      | None => None
      | Some filename => Some (absoluteUrl, filename, Path.join outputDir filename)
      end
  end.

(** A task after its start: failed already, or its GET is in flight. *)
Inductive pending :=
| PFailed
| PIssued (absoluteUrl filename filepath : string).

(** Starting a task: the synchronous part, then [axios.get] is sent. *)
Definition task_issue (baseUrl resourcesDir : string) (r : resource) : M pending :=
  match dr_prepare baseUrl (resource_url baseUrl r) resourcesDir with
  | None => ret PFailed
  | Some (absoluteUrl, filename, filepath) =>
      catch (let* _ := axios_issue absoluteUrl in ret (PIssued absoluteUrl filename filepath))
            (fun _ => ret PFailed)
  end.

(** Completing [downloadResource]: [{success, filename}]. *)
Definition dr_complete (p : pending) : M (option string) :=
  match p with
  | PFailed => ret None
  | PIssued absoluteUrl filename filepath =>
      catch (let* data := axios_settle (fun status => status =? 200) absoluteUrl in
             let* _ := fs_writeFile filepath data in
             ret (Some filename))
            (fun _ => ret None)
  end.

(** [$el.attr(attr, value)] on the element at a document index. *)
Definition set_attr_at (dom : list element) (idx : nat) (a v : string) : list element :=
  match dom !! idx with
  | Some e => <[idx := set_attr e a v]> dom
  | None => dom
  end.

(** Completing task [i]: the [.then] of lines 140-145 rewrites the
    element when the download succeeded. *)
Definition task_settle (resourcesDir : string) (resources : list resource)
    (pendings : list pending) (dom : list element) (i : nat) : M (list element) :=
  match resources !! i, pendings !! i with
  | Some r, Some p =>
      let* outcome := dr_complete p in
      match outcome, r with
      | Some filename, ElemRes idx _ attr =>
          ret (set_attr_at dom idx attr (Path.basename resourcesDir +++ "/" +++ filename))
      | _, _ => ret dom
      end
  | _, _ => ret dom
  end.

(** [processHtmlWithProgress] (lines 91-163). Listr starts every task,
    then the tasks complete in the scheduling order [order]; both the
    [.then] and the [.catch] of [run()] resolve with the serialized tree. *)
Definition processHtmlWithProgress (html : content) (baseUrl resourcesDir : string)
    (order : list nat) : M (list element) :=
  let dom := cheerio_load html in
  let resources := scan_resources dom baseUrl in
  match resources with
  | [] => ret dom
  | _ =>
      let* pendings := mapM (task_issue baseUrl resourcesDir) resources in
      foldM (task_settle resourcesDir resources pendings) order dom
  end.

(** *** [downloadPage] (lines 165-212) *)

Definition PageLoaderError (message : string) (code : option string) : jserror :=
  mkError "PageLoaderError" message
          (Some match code with Some c => c | None => "UNKNOWN" end) None.

Definition classify_message (url outputDir : string) (error : jserror) : string :=
  match e_code error with
  | Some "ENOTFOUND" => "Network error: could not resolve host for " +++ url
  | Some "EACCES" => "Output directory is not writable: " +++ outputDir
  | _ =>
      match e_status error with
      | Some s => "Request failed with status " +++ nat_to_string s
      | None => e_message error
      end
  end.

Definition resources_dir_of (outputDir pageName : string) : string :=
  Path.join outputDir (replace_first pageName ".html" "" +++ "_files").

Definition downloadPage (url outputDir : string) (order : list nat) : M jsval :=
  catch
    (let* _ := fs_access outputDir in
     let* data := axios_get default_validate url in
     let* pageName := generateFileName_m url false in
     let resourcesDir := resources_dir_of outputDir pageName in
     let htmlFilePath := Path.join outputDir pageName in
     let* _ := fs_mkdir_p resourcesDir in
     let* processedHtml := processHtmlWithProgress data url resourcesDir order in
     let* _ := fs_writeFile htmlFilePath (Doc processedHtml) in
     ret (JsString htmlFilePath))
    (fun error => throw (PageLoaderError (classify_message url outputDir error) (e_code error))).

(** *** The per-resource outcome (the spec's DownloadOutcome)

    What each task does is decided by the file system at the start of the
    run: the tasks only add files, which leaves unchanged whether a
    [writeFile] at any path succeeds. *)

Definition write_ok (f : gmap string node) (p : string) : bool :=
  match write_error f p with None => true | Some _ => false end.

(** The task of a resource once started, without its effect. *)
Definition task_pending (baseUrl resourcesDir : string) (r : resource) : pending :=
  match dr_prepare baseUrl (resource_url baseUrl r) resourcesDir with
  | None => PFailed
  | Some (absoluteUrl, filename, filepath) =>
      match new_URL absoluteUrl None with
      | Some _ => PIssued absoluteUrl filename filepath
      | None => PFailed
      end
  end.

(** The requests the tasks send, in task order. *)
Definition issued_urls (baseUrl resourcesDir : string) (rs : list resource) : list string :=
  flat_map (fun r => match task_pending baseUrl resourcesDir r with
                     | PIssued a _ _ => [a]
                     | PFailed => []
                     end) rs.

(** [Some filename] when the resource's download succeeds (HTTP 200 and
    the file written), [None] when it fails. *)
Definition download_outcome (f : gmap string node) (baseUrl resourcesDir : string)
    (r : resource) : option string :=
  match task_pending baseUrl resourcesDir r with
  | PFailed => None
  | PIssued a filename filepath =>
      match net a with
      | Http s _ => if (s =? 200) && write_ok f filepath then Some filename else None
      | NetError _ _ => None
      end
  end.

(** The local path written into a rewritten attribute. *)
Definition local_path (resourcesDir filename : string) : string :=
  Path.basename resourcesDir +++ "/" +++ filename.

(** The effect of completing task [i] on the markup. *)
Definition settle_pure (f : gmap string node) (baseUrl resourcesDir : string)
    (resources : list resource) (dom : list element) (i : nat) : list element :=
  match resources !! i with
  | Some (ElemRes idx u attr as r) =>
      match download_outcome f baseUrl resourcesDir r with
      | Some filename => set_attr_at dom idx attr (local_path resourcesDir filename)
      | None => dom
      end
  | _ => dom
  end.

(** The effect of completing task [i] on the file system: the file of a
    successful download is written. *)
Definition settle_fs (f0 : gmap string node) (baseUrl resourcesDir : string)
    (resources : list resource) (f : gmap string node) (i : nat) : gmap string node :=
  match resources !! i with
  | Some r =>
      match download_outcome f0 baseUrl resourcesDir r, task_pending baseUrl resourcesDir r with
      | Some _, PIssued a _ filepath =>
          match net a with
          | Http _ data => <[filepath := File true data]> f
          | NetError _ _ => f
          end
      | _, _ => f
      end
  | None => f
  end.

Definition res_idxs (rs : list resource) : list nat :=
  flat_map (fun r => match r with ElemRes i _ _ => [i] | MainPage => [] end) rs.

End PageLoader.

(* ------------------------------------------------------------------ *)
(** ** The second module of [src/src/page-loader.js] (lines 214-395)

    The file continues with a second module whose named export
    [downloadPage] is the one [src/bin/page-loader.js] imports. Its
    helpers [isLocalResource], [new URL], axios and [fs] are those above. *)

Section PageLoaderV2.

Variable new_URL : string -> option URL -> option URL.
Variable net : string -> response.

(** [generateFileName] (lines 245-271); [None] when [new URL] throws. *)
Definition generateFileName2 (urlString : string) (isResource : bool) : option string :=
  match new_URL urlString None with
  | None => None
  | Some url =>
      let pathParts := filter (fun s => negb (String.eqb s "")) (Path.split_slash (pathname url)) in
      let nameParts :=
        if isResource && (0 <? length pathParts) then
          let base := hostname url :: (if 1 <? length pathParts then removelast pathParts else []) in
          let fileName := List.last pathParts "" in
          base ++ [replace_first fileName (Path.extname fileName) ""]
        else hostname url :: pathParts in
      let name := trim_hyphen (collapse_hyphens false (replace_nonalnum (String.concat "-" nameParts))) in
      if isResource then
        let ext := Path.extname (pathname url) in
        Some (if String.eqb ext "" then name else name +++ ext)
      else Some (name +++ ".html")
  end.

Definition generateFileName2_m (urlString : string) (isResource : bool) : M string :=
  match generateFileName2 urlString isResource with
  | Some n => ret n
  | None => throw invalid_url_error
  end.

(** [downloadResource] (lines 273-303) after its synchronous part: its
    promise rejected ([new URL] threw in the executor), resolved with
    [null] already (axios rejected before sending), or its GET in flight. *)
Inductive pending2 :=
| P2Rejected
| P2Failed
| P2Issued (absoluteUrl : string).

Definition task2_issue (baseUrl resourceUrl : string) : M pending2 :=
  match new_URL_with_base new_URL resourceUrl baseUrl with
  | None => ret P2Rejected
  | Some u =>
      let absoluteUrl := href u in
      catch (let* _ := axios_issue new_URL absoluteUrl in ret (P2Issued absoluteUrl))
            (fun _ => ret P2Failed)
  end.

(** The rest of [downloadResource]: the filename, or [null]. *)
Definition dr2_complete (outputDir : string) (p : pending2) : M (option string) :=
  match p with
  | P2Issued absoluteUrl =>
      catch (let* data := axios_settle net (fun status => status =? 200) absoluteUrl in
             let* filename := generateFileName2_m absoluteUrl true in
             let filepath := Path.join outputDir filename in
             catch (let* _ := fs_writeFile filepath data in ret (Some filename))
                   (fun _ => ret None))
            (fun _ => ret None)
  | _ => ret None
  end.

(** The three selectors of [processHtml] (lines 312-316). *)
Definition tagsToProcess2 : list ((element -> bool) * string) :=
  [(sel_img, "src"); (sel_link, "href"); (sel_script, "src")].

Definition scan_resources2 (dom : list element) (baseUrl : string) : list resource :=
  flat_map (fun '(sel, attr) => scan_from new_URL baseUrl sel attr 0 dom) tagsToProcess2.

(** Completion of the promise of resource [i]: its [.then] rewrites the
    element when [filename] is truthy. *)
Definition task2_settle (resourcesDir : string) (resources : list resource)
    (pendings : list pending2) (dom : list element) (i : nat) : M (list element) :=
  match resources !! i, pendings !! i with
  | Some (ElemRes idx _ attr), Some p =>
      let* filename := dr2_complete resourcesDir p in
      match filename with
      | Some f =>
          if String.eqb f "" then ret dom
          else ret (set_attr_at dom idx attr (Path.basename resourcesDir +++ "/" +++ f))
      | None => ret dom
      end
  | _, _ => ret dom
  end.

Definition is_rejected (p : pending2) : bool :=
  match p with P2Rejected => true | _ => false end.

(** [processHtml] (lines 305-339). The promises complete in the scheduling
    order [order]. When one of them rejected, [Promise.all] rejects at once
    and the markup is serialized before any rewrite; the downloads still
    run to their end. *)
Definition processHtml2 (html : content) (baseUrl resourcesDir : string)
    (order : list nat) : M (list element) :=
  let dom := cheerio_load html in
  let resources := scan_resources2 dom baseUrl in
  let* pendings := mapM (fun r => task2_issue baseUrl (resource_url baseUrl r)) resources in
  if existsb is_rejected pendings then
    let* _ := foldM (task2_settle resourcesDir resources pendings) order dom in ret dom
  else foldM (task2_settle resourcesDir resources pendings) order dom.

(** [new PageLoaderError(message, code)] of this module: it sets no
    [name], which stays ['Error']. *)
Definition PageLoaderError2 (message : string) (code : string) : jserror :=
  mkError "Error" message (Some code) None.

(** [error.code || 'PAGE_DOWNLOAD_FAILED'] *)
Definition code_or_default (code : option string) : string :=
  match code with
  | Some c => if String.eqb c "" then "PAGE_DOWNLOAD_FAILED" else c
  | None => "PAGE_DOWNLOAD_FAILED"
  end.

(** The [.catch] of [downloadPage] (lines 376-392). *)
Definition downloadPage2_error (url outputDir : string) (error : jserror) : jserror :=
  let message := classify_message url outputDir error in
  PageLoaderError2
    (match e_code error with
     | Some "ENOTFOUND" => message
     | _ => "Failed to download " +++ url +++ ": " +++ message
     end)
    (code_or_default (e_code error)).

(** [downloadPage] (lines 341-395), resolving with [htmlPath]. *)
Definition downloadPage2 (url outputDir : string) (order : list nat) : M string :=
  catch
    (let* _ := fs_access outputDir in
     let* data := axios_get new_URL net (fun status => status =? 200) url in
     let* name := generateFileName2_m url false in
     let pageName := replace_first name ".html" "" in
     let resourcesDir := Path.join outputDir (pageName +++ "_files") in
     let* _ := fs_mkdir_p resourcesDir in
     let* processedHtml := processHtml2 data url resourcesDir order in
     let htmlPath := Path.join outputDir (pageName +++ ".html") in
     let* _ := fs_writeFile htmlPath (Doc processedHtml) in
     ret htmlPath)
    (fun error => throw (downloadPage2_error url outputDir error)).

End PageLoaderV2.

(* ------------------------------------------------------------------ *)
(** ** The command line ([src/bin/page-loader.js])

    The file holds two versions of the [action] handler; both call the
    named export [downloadPage] (the second module above). What a run
    prints and its exit status: *)

Record cli_result := mkCli {
  cli_stdout : list string;
  cli_stderr : list string;
  cli_exit : nat
}.

(** The first handler (lines 15-25). *)
Definition cli_action1 (new_URL : string -> option URL -> option URL) (net : string -> response)
    (url output : string) (order : list nat) (w : World) : World * cli_result :=
  match downloadPage2 new_URL net url output order w with
  | (w', inr filepath) => (w', mkCli [filepath] [] 0)
  | (w', inl error) => (w', mkCli [] [e_message error] 1)
  end.

(** The resources directory the second handler reports (lines 48-50). *)
Definition cli_resources_dir (filepath : string) : string :=
  let dirName := Path.dirname filepath in
  let fileName := Path.basename filepath in
  Path.join dirName (replace_first fileName ".html" "_files").

(** The second handler (lines 44-62), without chalk's colour codes. *)
Definition cli_action2 (new_URL : string -> option URL -> option URL) (net : string -> response)
    (url output : string) (order : list nat) (w : World) : World * cli_result :=
  let banner := "Downloading " +++ url +++ "..." in
  match downloadPage2 new_URL net url output order w with
  | (w', inr filepath) =>
      (w', mkCli [banner; String "010"%char ("Page successfully saved to: " +++ filepath);
                  "Resources saved in: " +++ cli_resources_dir filepath] [] 0)
  | (w', inl error) =>
      (w', mkCli [banner] [String "010"%char ("Error: " +++ e_message error)] 1)
  end.

(* ------------------------------------------------------------------ *)
(** ** A concrete [URL] constructor

    The WHATWG URL parser (as Node's [URL] implements it) for ASCII input:
    schemes http, https, ws, wss, ftp and non-special schemes, relative
    references, percent-encoding, dot segments, default ports, IPv4 hosts.
    Not covered (the constructor is [None] there): internationalized
    host names, IPv6 literals and [file:] URLs. *)

Module Whatwg.

Definition code (c : ascii) : nat := nat_of_ascii c.
Definition in_codes (c : ascii) (l : list nat) : bool := existsb (Nat.eqb (code c)) l.

Definition lower (c : ascii) : ascii :=
  if (65 <=? code c) && (code c <=? 90) then ascii_of_nat (code c + 32) else c.
Definition is_alpha (c : ascii) : bool := (97 <=? code (lower c)) && (code (lower c) <=? 122).
Definition is_digit (c : ascii) : bool := (48 <=? code c) && (code c <=? 57).

Fixpoint drop_while (p : ascii -> bool) (l : list ascii) : list ascii :=
  match l with [] => [] | c :: l' => if p c then drop_while p l' else l end.

Fixpoint take_until (p : ascii -> bool) (l : list ascii) : list ascii * list ascii :=
  match l with
  | [] => ([], [])
  | c :: l' => if p c then ([], l) else let (a, b) := take_until p l' in (c :: a, b)
  end.

Fixpoint split_on (p : ascii -> bool) (l : list ascii) : list (list ascii) :=
  match l with
  | [] => [[]]
  | c :: l' =>
      let parts := split_on p l' in
      if p c then [] :: parts
      else match parts with x :: r => (c :: x) :: r | [] => [[c]] end
  end.

(** Leading and trailing C0 controls and spaces are stripped, tabs and
    newlines removed. *)
Definition preprocess (s : string) : list ascii :=
  let ws c := code c <=? 32 in
  let l := list_ascii_of_string s in
  let l1 := rev (drop_while ws (rev (drop_while ws l))) in
  filter (fun c => negb (in_codes c [9; 10; 13])) l1.

Fixpoint scheme_rest (acc l : list ascii) : option (list ascii * list ascii) :=
  match l with
  | [] => None
  | c :: l' =>
      if Ascii.eqb c ":" then Some (rev acc, l')
      else if is_alpha c || is_digit c || in_codes c [43; 45; 46]
      then scheme_rest (lower c :: acc) l'
      else None
  end.

Definition parse_scheme (l : list ascii) : option (list ascii * list ascii) :=
  match l with c :: l' => if is_alpha c then scheme_rest [lower c] l' else None | [] => None end.

Definition is_special (sch : string) : bool :=
  existsb (String.eqb sch) ["http"; "https"; "ws"; "wss"; "ftp"].

Definition default_port (sch : string) : string :=
  if String.eqb sch "http" || String.eqb sch "ws" then "80"
  else if String.eqb sch "https" || String.eqb sch "wss" then "443"
  else if String.eqb sch "ftp" then "21" else "".

Definition is_slash (sp : bool) (c : ascii) : bool :=
  Ascii.eqb c "/" || (sp && Nat.eqb (code c) 92).

(** Percent-encode sets. *)
Definition hex_digit (n : nat) : ascii := ascii_of_nat (if n <? 10 then 48 + n else 55 + n).
Definition pct_encode (set : ascii -> bool) (l : list ascii) : list ascii :=
  flat_map (fun c => if set c then ["%"%char; hex_digit (code c / 16); hex_digit (code c mod 16)]
                     else [c]) l.
Definition c0_set (c : ascii) : bool := (code c <? 32) || (126 <? code c).
Definition fragment_set (c : ascii) : bool := c0_set c || in_codes c [32; 34; 60; 62; 96].
Definition query_set (sp : bool) (c : ascii) : bool :=
  c0_set c || in_codes c [32; 34; 35; 60; 62] || (sp && Nat.eqb (code c) 39).
Definition path_set (c : ascii) : bool := query_set false c || in_codes c [63; 96; 123; 125].
Definition userinfo_set (c : ascii) : bool :=
  path_set c || in_codes c [47; 58; 59; 61; 64; 91; 92; 93; 94; 124].

Definition hex_val (c : ascii) : option nat :=
  let n := code (lower c) in
  if is_digit c then Some (n - 48)
  else if (97 <=? n) && (n <=? 102) then Some (n - 87) else None.

Fixpoint percent_decode (l : list ascii) : list ascii :=
  match l with
  | [] => []
  | c :: rest =>
      if Ascii.eqb c "%" then
        match rest with
        | a :: b :: l' =>
            match hex_val a, hex_val b with
            | Some x, Some y => ascii_of_nat (16 * x + y) :: percent_decode l'
            | _, _ => c :: percent_decode rest
            end
        | _ => c :: percent_decode rest
        end
      else c :: percent_decode rest
  end.

(** IPv4 hosts. *)
Definition digit_in_radix (r : N) (c : ascii) : option N :=
  match hex_val c with
  | Some v => if (N.of_nat v <? r)%N then Some (N.of_nat v) else None
  | None => None
  end.

Fixpoint radix_value (r acc : N) (l : list ascii) : option N :=
  match l with
  | [] => Some acc
  | c :: l' =>
      match digit_in_radix r c with
      | Some d => radix_value r (acc * r + d)%N l'
      | None => None
      end
  end.

Definition parse_ipv4_number (l : list ascii) : option N :=
  match l with
  | [] => None
  | c :: c2 :: r =>
      if Ascii.eqb c "0" && (Ascii.eqb (lower c2) "x")
      then radix_value 16 0 r
      else if Ascii.eqb c "0" then radix_value 8 0 (c2 :: r)
      else radix_value 10 0 l
  | _ => radix_value 10 0 l
  end.

Definition drop_trailing_empty (parts : list (list ascii)) : list (list ascii) :=
  match rev parts with
  | [] :: (_ :: _) as r => rev r
  | _ => parts
  end.

Definition ends_in_number (host : list ascii) : bool :=
  let parts := split_on (fun c => Ascii.eqb c ".") host in
  match rev parts with
  | [] :: [] => false
  | _ =>
      match rev (drop_trailing_empty parts) with
      | last :: _ =>
          (negb (Nat.eqb (length last) 0) && forallb is_digit last)
          || match parse_ipv4_number last with Some _ => true | None => false end
      | [] => false
      end
  end.

Fixpoint N_digits (fuel : nat) (n : N) : list ascii :=
  match fuel with
  | 0 => []
  | S f => (if (n <? 10)%N then [] else N_digits f (n / 10)%N)
           ++ [ascii_of_nat (48 + N.to_nat (n mod 10))]
  end.

Definition N_to_list (n : N) : list ascii := N_digits 20 n.

Fixpoint all_some {A} (l : list (option A)) : option (list A) :=
  match l with
  | [] => Some []
  | Some x :: l' => match all_some l' with Some r => Some (x :: r) | None => None end
  | None :: _ => None
  end.

Definition ipv4_parse (host : list ascii) : option (list ascii) :=
  let parts := drop_trailing_empty (split_on (fun c => Ascii.eqb c ".") host) in
  if 4 <? length parts then None else
  match all_some (map parse_ipv4_number parts) with
  | None => None
  | Some nums =>
      let n := length nums in
      let init := removelast nums in
      let last := List.last nums 0%N in
      if existsb (fun x => (255 <? x)%N) init then None
      else if (256 ^ N.of_nat (5 - n) <=? last)%N then None
      else
        let value := (fold_left (fun acc '(i, x) => acc + x * 256 ^ N.of_nat (3 - i))
                                (combine (seq 0 (length init)) init) 0 + last)%N in
        Some (N_to_list (value / 16777216) ++ ["."%char] ++
              N_to_list ((value / 65536) mod 256) ++ ["."%char] ++
              N_to_list ((value / 256) mod 256) ++ ["."%char] ++
              N_to_list (value mod 256))
  end.

Definition forbidden_host (c : ascii) : bool :=
  in_codes c [0; 9; 10; 13; 32; 35; 47; 58; 60; 62; 63; 64; 91; 92; 93; 94; 124].
Definition forbidden_domain (c : ascii) : bool :=
  forbidden_host c || (code c <=? 31) || in_codes c [37; 127].

(** The host parser of special URLs. *)
Definition host_parse (l : list ascii) : option (list ascii) :=
  match l with
  | [] => None
  | _ =>
      let d := map lower (percent_decode l) in
      if existsb (fun c => 127 <? code c) d then None
      else if Nat.eqb (length d) 0 then None
      else if existsb forbidden_domain d then None
      else if ends_in_number d then ipv4_parse d
      else Some d
  end.

(** The opaque host parser of non-special URLs. *)
Definition opaque_host_parse (l : list ascii) : option (list ascii) :=
  if existsb forbidden_host l then None else Some (pct_encode c0_set l).

(** Dot segments and the path state. *)
Definition seg_is (seg : list ascii) (forms : list string) : bool :=
  existsb (String.eqb (string_of_list_ascii (map lower seg))) forms.
Definition is_single_dot (seg : list ascii) : bool := seg_is seg ["."; "%2e"].
Definition is_double_dot (seg : list ascii) : bool := seg_is seg [".."; ".%2e"; "%2e."; "%2e%2e"].

Fixpoint push_segments (path segs : list (list ascii)) : list (list ascii) :=
  match segs with
  | [] => path
  | seg :: rest =>
      let is_last := match rest with [] => true | _ => false end in
      let buf := pct_encode path_set seg in
      let path' :=
        if is_double_dot buf then removelast path ++ (if is_last then [[]] else [])
        else if is_single_dot buf then (if is_last then path ++ [[]] else path)
        else path ++ [buf] in
      push_segments path' rest
  end.

Definition is_query_or_fragment_start (c : ascii) : bool := in_codes c [35; 63].

Definition path_state (sp : bool) (path : list (list ascii)) (l : list ascii)
  : list (list ascii) * list ascii :=
  let (p, tail) := take_until is_query_or_fragment_start l in
  (push_segments path (split_on (is_slash sp) p), tail).

Definition path_to_string (path : list (list ascii)) : string :=
  string_of_list_ascii (flat_map (fun seg => "/"%char :: seg) path).

(** Query and fragment after the path. *)
Definition parse_tail (sp : bool) (l : list ascii) : option string * option string :=
  match l with
  | c :: l' =>
      if Ascii.eqb c "?" then
        let (q, r) := take_until (fun c => Ascii.eqb c "#") l' in
        (Some (string_of_list_ascii (pct_encode (query_set sp) q)),
         match r with
         | _ :: f => Some (string_of_list_ascii (pct_encode fragment_set f))
         | [] => None
         end)
      else (None, Some (string_of_list_ascii (pct_encode fragment_set l')))
  | [] => (None, None)
  end.

Definition split_last_at (l : list ascii) : option (list ascii) * list ascii :=
  let (after_rev, before_rev) := take_until (fun c => Ascii.eqb c "@") (rev l) in
  match before_rev with
  | [] => (None, l)
  | _ :: b => (Some (rev b), rev after_rev)
  end.

Definition parse_port (sch : string) (l : list ascii) : option string :=
  match l with
  | [] => Some ""
  | _ =>
      if forallb is_digit l then
        match radix_value 10 0 l with
        | Some v =>
            if (65535 <? v)%N then None
            else let s := string_of_list_ascii (N_to_list v) in
                 Some (if String.eqb s (default_port sch) then "" else s)
        | None => None
        end
      else None
  end.

(** The authority and everything after it. *)
Definition after_authority (sp : bool) (sch : string) (l : list ascii) : option URL :=
  let (auth, rest) := take_until (fun c => in_codes c [47; 63; 35] || (sp && Nat.eqb (code c) 92)) l in
  let (ui, hp) := split_last_at auth in
  let info :=
    match ui with
    | None => ""
    | Some u =>
        let (user, pw) := take_until (fun c => Ascii.eqb c ":") u in
        let pass := match pw with _ :: p => p | [] => [] end in
        string_of_list_ascii
          (pct_encode userinfo_set user ++
           match pass with [] => [] | _ => ":"%char :: pct_encode userinfo_set pass end)
    end in
  let (h, pr) := take_until (fun c => Ascii.eqb c ":") hp in
  let port_chars := match pr with _ :: p => p | [] => [] end in
  let at_sign := match ui with Some _ => true | None => false end in
  match hp with
  | c :: _ => if Ascii.eqb c "[" then None else Some tt
  | [] => Some tt
  end ≫= fun _ =>
  (if at_sign && Nat.eqb (length h) 0 then None else Some tt) ≫= fun _ =>
  (if sp then host_parse h else opaque_host_parse h) ≫= fun host =>
  parse_port sch port_chars ≫= fun port =>
  let (path, tail) :=
    if sp then
      path_state true [] (match rest with c :: r => if is_slash true c then r else rest | [] => [] end)
    else
      match rest with
      | c :: r => if Ascii.eqb c "/" then path_state false [] r else ([], rest)
      | [] => ([], [])
      end in
  let (q, f) := parse_tail sp tail in
  Some (mkURL (sch +++ ":") true info (string_of_list_ascii host) port (path_to_string path) q f).

(** Non-special schemes ([mailto:], [javascript:], [data:], ...). *)
Definition non_special (sch : string) (rest : list ascii) : option URL :=
  match rest with
  | c :: r =>
      if Ascii.eqb c "/" then
        match r with
        | c2 :: r2 => if Ascii.eqb c2 "/" then after_authority false sch r2
                      else let (path, tail) := path_state false [] r in
                           let (q, f) := parse_tail false tail in
                           Some (mkURL (sch +++ ":") false "" "" "" (path_to_string path) q f)
        | [] => Some (mkURL (sch +++ ":") false "" "" "" "/" None None)
        end
      else
        let (p, tail) := take_until is_query_or_fragment_start rest in
        let (q, f) := parse_tail false tail in
        Some (mkURL (sch +++ ":") false "" "" "" (string_of_list_ascii (pct_encode c0_set p)) q f)
  | [] => Some (mkURL (sch +++ ":") false "" "" "" "" None None)
  end.

Definition scheme_of (b : URL) : string :=
  String.substring 0 (String.length (protocol b) - 1) (protocol b).

Definition base_segments (b : URL) : list (list ascii) :=
  match list_ascii_of_string (pathname b) with
  | c :: r => if Ascii.eqb c "/" then split_on (fun c => Ascii.eqb c "/") r else []
  | [] => []
  end.

Definition has_opaque_path (b : URL) : bool :=
  negb (has_authority b) && negb (starts_with (pathname b) "/").

Definition with_path (b : URL) (path : list (list ascii)) (tail : list ascii) (sp : bool) : URL :=
  let (q, f) := parse_tail sp tail in
  mkURL (protocol b) (has_authority b) (userinfo b) (hostname b) (port b) (path_to_string path) q f.

(** Input without a scheme (or with the base's special scheme), against
    a base URL. *)
Definition relative (b : URL) (l : list ascii) : option URL :=
  let sch := scheme_of b in
  let sp := is_special sch in
  if negb sp && has_opaque_path b then
    match l with
    | c :: f => if Ascii.eqb c "#" then
                  Some (mkURL (protocol b) (has_authority b) (userinfo b) (hostname b) (port b)
                              (pathname b) (query b) (Some (string_of_list_ascii (pct_encode fragment_set f))))
                else None
    | [] => None
    end
  else
  match l with
  | [] => Some (mkURL (protocol b) (has_authority b) (userinfo b) (hostname b) (port b)
                      (pathname b) (query b) None)
  | c :: l' =>
      if is_slash sp c then
        match l' with
        | c2 :: l'' =>
            if is_slash sp c2 then
              after_authority sp sch (if sp then drop_while (is_slash sp) l'' else l'')
            else let (path, tail) := path_state sp [] l' in Some (with_path b path tail sp)
        | [] => let (path, tail) := path_state sp [] l' in Some (with_path b path tail sp)
        end
      else if Ascii.eqb c "?" then
        let (q, f) := parse_tail sp l in
        Some (mkURL (protocol b) (has_authority b) (userinfo b) (hostname b) (port b) (pathname b) q f)
      else if Ascii.eqb c "#" then
        let (_, f) := parse_tail sp l in
        Some (mkURL (protocol b) (has_authority b) (userinfo b) (hostname b) (port b)
                    (pathname b) (query b) f)
      else
        let (path, tail) := path_state sp (removelast (base_segments b)) l in
        Some (with_path b path tail sp)
  end.

(** [new URL(input, base)] *)
Definition new_URL (input : string) (base : option URL) : option URL :=
  let l := preprocess input in
  match parse_scheme l with
  | Some (schl, rest) =>
      let sch := string_of_list_ascii schl in
      if String.eqb sch "file" then None
      else if is_special sch then
        match base with
        | Some b =>
            if String.eqb (protocol b) (sch +++ ":") then relative b rest
            else after_authority true sch (drop_while (is_slash true) rest)
        | None => after_authority true sch (drop_while (is_slash true) rest)
        end
      else non_special sch rest
  | None =>
      match base with
      | Some b => relative b l
      | None => None
      end
  end.

End Whatwg.

(* ------------------------------------------------------------------ *)
(** ** The stacks [normalizeString] builds: plain segments on top of
    [".."] segments, which only a relative path keeps. *)

Definition normal_stack (allow_above : bool) (stack : list string) : Prop :=
  exists xs dd : list string, stack = xs ++ dd /\
    Forall (fun x => plain_segment x = true) xs /\
    Forall (fun x => x = "..") dd /\ (allow_above = false -> dd = []).

(** A run keeps every directory, and every writable file (possibly with
    new contents). *)
Definition keeps_dirs (w w' : World) : Prop :=
  forall q b, fs w !! q = Some (Dir b) -> fs w' !! q = Some (Dir b).

Definition keeps_files (w w' : World) : Prop :=
  forall q c, fs w !! q = Some (File true c) -> exists c', fs w' !! q = Some (File true c').

(** The elements after the second [processHtml], against [dom0]: each is
    the original one, or a selected element whose URL attribute now names
    a file written under [rd]. *)
Definition rewrites_ok (dom0 : list element) (rd : string) (w : World) (dom : list element) : Prop :=
  length dom = length dom0 /\
  forall k, dom !! k = dom0 !! k \/
    exists e a f c, dom0 !! k = Some e /\
      dom !! k = Some (set_attr e a (Path.basename rd +++ "/" +++ f)) /\ f <> "" /\
      fs w !! Path.join rd f = Some (File true c) /\
      ((sel_img e = true /\ a = "src") \/ (sel_link e = true /\ a = "href") \/
       (sel_script e = true /\ a = "src")).

(* ------------------------------------------------------------------ *)
(** ** Concrete worlds (the scenarios of the spec and of the tests) *)

Definition out_fs : gmap string node :=
  <["/" := Dir true]> (<["/tmp" := Dir true]> (<["/tmp/out" := Dir true]>
  (<["/tmp/readonly" := Dir false]> ∅))).

Definition w_out : World := mkWorld out_fs [].

Definition hexlet_page : content :=
  Doc [mkElement "html" [];
       mkElement "img" [("src", "/assets/professions/nodejs.png")]].

Definition hexlet_net (u : string) : response :=
  if String.eqb u "https://ru.hexlet.io/courses" then Http 200 hexlet_page
  else if String.eqb u "https://ru.hexlet.io/assets/professions/nodejs.png"
  then Http 200 (Bytes "PNG")
  else Http 404 (Bytes "Not Found").

(** One reachable image, one image answering 404, one foreign image. *)
Definition partial_page : content :=
  Doc [mkElement "img" [("src", "/image.png")];
       mkElement "img" [("src", "/missing.png")];
       mkElement "img" [("src", "https://cdn.example.org/logo.png")]].

Definition partial_net (u : string) : response :=
  if String.eqb u "https://example.com" then Http 200 partial_page
  else if String.eqb u "https://example.com/image.png" then Http 200 (Bytes "image-data")
  else Http 404 (Bytes "Not Found").

(** Two references to one image. *)
Definition dup_page : content :=
  Doc [mkElement "img" [("src", "/a.png")]; mkElement "img" [("src", "/a.png")]].

Definition dup_net (u : string) : response :=
  if String.eqb u "https://example.com" then Http 200 dup_page
  else Http 200 (Bytes "a").

(** Every URL answers with the given status. *)
Definition status_net (s : nat) (u : string) : response := Http s (Doc []).

(* ------------------------------------------------------------------ *)
(** ** Proofs *)

(** *** Monad and helper lemmas *)

Lemma bind_inr {A B} (m : M A) (k : A -> M B) w w' (b : B) :
  bind m k w = (w', inr b) -> exists w1 a, m w = (w1, inr a) /\ k a w1 = (w', inr b).
Proof. unfold bind. destruct (m w) as [w1 [e|a]]; intros H; [discriminate | eauto]. Qed.

Lemma catch_rethrow_inr {A} (m : M A) (h : jserror -> jserror) w w' (v : A) :
  catch m (fun e => throw (h e)) w = (w', inr v) -> m w = (w', inr v).
Proof. unfold catch, throw. destruct (m w) as [w1 [e|a]]; congruence. Qed.

(** A writable node at the key itself: [fs.access] succeeds. *)
Lemma fs_access_ok (p : string) (w : World) :
  match fs w !! p with Some n => node_writable n | None => false end = true ->
  fs_access p w = (w, inr tt).
Proof.
  unfold fs_access, access_error. destruct (fs w !! p) as [n|]; [|discriminate].
  intros H. now rewrite H.
Qed.

Lemma access_walk_code f cur n comps code :
  access_walk f cur n comps = Some code ->
  code = "EACCES" \/ code = "ENOENT" \/ code = "ENOTDIR".
Proof.
  revert cur n. induction comps as [|c cs IH]; intros cur n; simpl.
  - destruct (node_writable n); intros H; [discriminate|injection H as <-; auto].
  - destruct n as [b|b c0]; [|intros H; injection H as <-; auto].
    destruct (String.eqb c ""); [apply IH|].
    destruct (f !! Path.join cur c); [apply IH|intros H; injection H as <-; auto].
Qed.

(** [access] fails with [EACCES], [ENOENT] or [ENOTDIR]. *)
Lemma access_error_code f p code :
  access_error f p = Some code ->
  code = "EACCES" \/ code = "ENOENT" \/ code = "ENOTDIR".
Proof.
  unfold access_error. destruct (f !! p) as [n|].
  - destruct (node_writable n); intros H; [discriminate|injection H as <-; auto].
  - destruct (String.eqb p ""); [intros H; injection H as <-; auto|].
    destruct (f !! _); [apply access_walk_code|intros H; injection H as <-; auto].
Qed.

(** The walk on the output directory of the examples: a trailing slash,
    a doubled slash or ["."] reaches the directory; a missing component is
    [ENOENT]; a path through a regular file is [ENOTDIR]. *)
Lemma access_error_examples :
  access_error out_fs "/tmp/out/" = None /\
  access_error out_fs "/tmp//out/." = None /\
  access_error out_fs "/tmp/out/../out" = None /\
  access_error out_fs "/tmp/readonly/" = Some "EACCES" /\
  access_error out_fs "/tmp/out/missing/x" = Some "ENOENT" /\
  access_error out_fs "" = Some "ENOENT" /\
  access_error (<["/tmp/out/f" := File true (Doc [])]> out_fs) "/tmp/out/f/x" = Some "ENOTDIR" /\
  access_error (<["/tmp/out/f" := File true (Doc [])]> out_fs) "/tmp/out/f/" = Some "ENOTDIR".
Proof. vm_compute. repeat split. Qed.

(** [rel] matches whatever its case. *)
Lemma sel_link_rel_case :
  sel_link (mkElement "link" [("rel", "StyleSheet"); ("href", "/a.css")]) = true.
Proof. vm_compute. reflexivity. Qed.

Lemma prefix_cons (x c : ascii) (p s : string) :
  String.prefix (String x p) (String c s) =
  if Ascii.ascii_dec x c then String.prefix p s else false.
Proof. reflexivity. Qed.

Lemma starts_with_slash_append (a b : string) :
  starts_with a "/" = true -> starts_with (a +++ b) "/" = true.
Proof.
  destruct a as [|c a]; [discriminate|]. unfold starts_with.
  change (String c a +++ b) with (String c (a +++ b)).
  rewrite !prefix_cons. destruct (Ascii.ascii_dec _ c); [|discriminate].
  destruct (a +++ b); reflexivity.
Qed.

Lemma normalize_abs (p : string) :
  starts_with p "/" = true -> starts_with (Path.normalize p) "/" = true.
Proof.
  intros H. unfold Path.normalize.
  destruct (String.eqb p "") eqn:E; [apply String.eqb_eq in E; subst; discriminate|].
  rewrite H. simpl negb.
  destruct (String.eqb (Path.normalize_string p false) ""); [reflexivity|].
  destruct (ends_with p "/"); destruct (Path.normalize_string p false); reflexivity.
Qed.

Lemma join_abs (a b : string) :
  starts_with a "/" = true -> starts_with (Path.join a b) "/" = true.
Proof.
  intros H. unfold Path.join.
  destruct (String.eqb a "") eqn:Ea; [apply String.eqb_eq in Ea; subst; discriminate|].
  destruct (String.eqb b "").
  - rewrite Ea. now apply normalize_abs.
  - assert (Hj : starts_with (a +++ "/" +++ b) "/" = true) by now apply starts_with_slash_append.
    destruct (String.eqb (a +++ "/" +++ b) "") eqn:E.
    + apply String.eqb_eq in E. rewrite E in Hj. discriminate.
    + now apply normalize_abs.
Qed.

(** Running [downloadPage] up to its success value. *)
Lemma downloadPage_success_inv new_URL net url outputDir order w w' v :
  downloadPage new_URL net url outputDir order w = (w', inr v) ->
  exists pageName w1 w2 w3 w4 data processed,
    fs_access outputDir w = (w1, inr tt) /\
    axios_get new_URL net default_validate url w1 = (w2, inr data) /\
    generateFileName new_URL url false = Some pageName /\
    fs_mkdir_p (resources_dir_of outputDir pageName) w2 = (w3, inr tt) /\
    processHtmlWithProgress new_URL net data url (resources_dir_of outputDir pageName) order w3
      = (w4, inr processed) /\
    fs_writeFile (Path.join outputDir pageName) (Doc processed) w4 = (w', inr tt) /\
    v = JsString (Path.join outputDir pageName).
Proof.
  unfold downloadPage. intros H. apply catch_rethrow_inr in H.
  apply bind_inr in H as (w1 & [] & H1 & H).
  apply bind_inr in H as (w2 & data & H2 & H).
  apply bind_inr in H as (w2' & pageName & Hg & H).
  unfold generateFileName_m in Hg.
  destruct (generateFileName new_URL url false) as [pn|] eqn:G; [|discriminate].
  injection Hg as <- <-.
  apply bind_inr in H as (w3 & [] & H3 & H).
  apply bind_inr in H as (w4 & processed & H4 & H).
  apply bind_inr in H as (w5 & [] & H5 & H).
  injection H as <- <-.
  exists pn, w1, w2, w3, w4, data, processed. tauto.
Qed.

(** *** C7 *)

(** C7 (counterexample): resolved against [https://a.com/p], the string
    ["not a url"] is a relative path reference: [new URL] yields
    [https://a.com/not%20a%20url], which has the base's host, so
    [isLocalResource] returns [true], not [false]. *)
Lemma isLocalResource_not_a_url_is_local :
  option_map href (new_URL_with_base Whatwg.new_URL "not a url" "https://a.com/p")
    = Some "https://a.com/not%20a%20url" /\
  isLocalResource Whatwg.new_URL "https://a.com/p" "not a url" <> false.
Proof. split; vm_compute; [reflexivity | discriminate]. Qed.

(** C7 (amended): [isLocalResource] is total (it is a function to [bool]
    for every parser); it is [true] exactly when the base parses, the
    candidate resolves against it and both have the same host name, so it
    is [false] whenever the base does not parse or the candidate does not
    resolve; with the WHATWG parser, https://b.com/x.png is not local to
    https://a.com/p, while /x.png and "not a url" (a relative path) are. *)
Theorem isLocalResource_total :
  (forall new_URL baseUrl resourceUrl,
     isLocalResource new_URL baseUrl resourceUrl = true <->
     exists base resource, new_URL baseUrl None = Some base /\
       new_URL resourceUrl (Some base) = Some resource /\
       hostname resource = hostname base) /\
  (forall new_URL baseUrl resourceUrl,
     new_URL_with_base new_URL resourceUrl baseUrl = None ->
     isLocalResource new_URL baseUrl resourceUrl = false) /\
  isLocalResource Whatwg.new_URL "https://a.com/p" "https://b.com/x.png" = false /\
  isLocalResource Whatwg.new_URL "https://a.com/p" "/x.png" = true /\
  isLocalResource Whatwg.new_URL "https://a.com/p" "not a url" = true.
Proof.
  split; [|split; [|vm_compute; auto]].
  - intros new_URL b c. unfold isLocalResource. split.
    + destruct (new_URL b None) as [ub|]; [|discriminate].
      destruct (new_URL c (Some ub)) as [uc|] eqn:E2; [|discriminate].
      intros H. apply String.eqb_eq in H. exists ub, uc. auto.
    + intros (ub & uc & -> & -> & E). now apply String.eqb_eq.
  - intros new_URL b c. unfold isLocalResource, new_URL_with_base.
    destruct (new_URL b None); [|reflexivity]. now intros ->.
Qed.

(** *** C6 *)

(** C6: [generateFileName] is a pure function of its arguments: a call
    leaves the world (files and requests) as it is, and its result does not
    depend on the world, so two calls with the same URL and role, with
    anything run before or between them, give the same name. *)
Theorem generateFileName_pure new_URL (u : string) (isResource : bool) :
  (forall w, generateFileName_m new_URL u isResource w =
             (w, match generateFileName new_URL u isResource with
                 | Some n => inr n | None => inl invalid_url_error end)) /\
  (forall A (between : M A) w w' n1 n2,
     (let* n1 := generateFileName_m new_URL u isResource in
      let* _ := between in
      let* n2 := generateFileName_m new_URL u isResource in
      ret (n1, n2)) w = (w', inr (n1, n2)) ->
     n1 = n2 /\ generateFileName new_URL u isResource = Some n1).
Proof.
  split.
  - intros w. unfold generateFileName_m.
    destruct (generateFileName new_URL u isResource); reflexivity.
  - intros A between w w' n1 n2 H. unfold generateFileName_m, bind, ret, throw in H.
    destruct (generateFileName new_URL u isResource) as [n|]; [|discriminate].
    destruct (between w) as [w1 [e|a]]; [discriminate|].
    injection H as _ <- <-. auto.
Qed.

(** *** C3 *)

(** C3: the run on https://ru.hexlet.io/courses with the image
    /assets/professions/nodejs.png into /tmp/out. The page file and the
    resources directory have the expected names, but the resource file name
    carries the extension twice: the name built from the path already ends
    in [-nodejs.png] (the dot is kept) and [.png] is appended again. The
    file ru-hexlet-io-assets-professions-nodejs.png does not exist and the
    [src] points at the [.png.png] file. *)
Theorem hexlet_scenario_double_extension :
  generateFileName Whatwg.new_URL "https://ru.hexlet.io/assets/professions/nodejs.png" true
    = Some "ru-hexlet-io-assets-professions-nodejs.png.png" /\
  let r := downloadPage Whatwg.new_URL hexlet_net "https://ru.hexlet.io/courses" "/tmp/out" [0] w_out in
  snd r = inr (JsString "/tmp/out/ru-hexlet-io-courses.html") /\
  Path.basename (resources_dir_of "/tmp/out" "ru-hexlet-io-courses.html")
    = "ru-hexlet-io-courses_files" /\
  fs (fst r) !! "/tmp/out/ru-hexlet-io-courses_files/ru-hexlet-io-assets-professions-nodejs.png.png"
    = Some (File true (Bytes "PNG")) /\
  fs (fst r) !! "/tmp/out/ru-hexlet-io-courses_files/ru-hexlet-io-assets-professions-nodejs.png"
    = None /\
  fs (fst r) !! "/tmp/out/ru-hexlet-io-courses.html"
    = Some (File true (Doc [mkElement "html" [];
        mkElement "img" [("src", "ru-hexlet-io-courses_files/ru-hexlet-io-assets-professions-nodejs.png.png")]])).
Proof. vm_compute. repeat split. Qed.

(** *** C5 *)

(** C5 (counterexample): a successful run resolves with the path of the
    saved page as a string, not with a record
    [{htmlPath, resourcesDirectory}]. *)
Lemma downloadPage_resolves_string_not_record :
  snd (downloadPage Whatwg.new_URL hexlet_net "https://ru.hexlet.io/courses" "/tmp/out" [0] w_out)
    = inr (JsString "/tmp/out/ru-hexlet-io-courses.html") /\
  ~ exists h r,
    snd (downloadPage Whatwg.new_URL hexlet_net "https://ru.hexlet.io/courses" "/tmp/out" [0] w_out)
      = inr (JsObject [("htmlPath", JsString h); ("resourcesDirectory", JsString r)]).
Proof.
  split; [vm_compute; reflexivity|].
  intros (h & r & H). vm_compute in H. discriminate.
Qed.

(** C5 (amended): the value a successful run resolves with is the path
    string [path.join(outputDir, pageName)] of the saved page, where
    [pageName] is the page's generated file name; it is absolute when
    [outputDir] is. *)
Theorem downloadPage_success_value new_URL net url outputDir order w w' v :
  downloadPage new_URL net url outputDir order w = (w', inr v) ->
  exists pageName,
    generateFileName new_URL url false = Some pageName /\
    v = JsString (Path.join outputDir pageName) /\
    (starts_with outputDir "/" = true -> starts_with (Path.join outputDir pageName) "/" = true).
Proof.
  intros H. apply downloadPage_success_inv in H
    as (pn & w1 & w2 & w3 & w4 & data & processed & _ & _ & G & _ & _ & _ & ->).
  exists pn. split; [exact G|]. split; [reflexivity|]. apply join_abs.
Qed.

Lemma downloadPage_success_value_witness :
  exists pageName,
    generateFileName Whatwg.new_URL "https://ru.hexlet.io/courses" false = Some pageName /\
    JsString "/tmp/out/ru-hexlet-io-courses.html" = JsString (Path.join "/tmp/out" pageName) /\
    (starts_with "/tmp/out" "/" = true ->
     starts_with (Path.join "/tmp/out" pageName) "/" = true).
Proof.
  apply (downloadPage_success_value Whatwg.new_URL hexlet_net "https://ru.hexlet.io/courses"
           "/tmp/out" [0] w_out
           (fst (downloadPage Whatwg.new_URL hexlet_net "https://ru.hexlet.io/courses" "/tmp/out" [0] w_out))).
  vm_compute. reflexivity.
Defined.

(** *** C4 *)

Lemma classify_status_error url outputDir msg s :
  classify_message url outputDir (mkError "AxiosError" msg (axios_status_code s) (Some s))
    = "Request failed with status " +++ nat_to_string s.
Proof.
  unfold classify_message, axios_status_code.
  destruct (s / 100 =? 4); [reflexivity|]. destruct (s / 100 =? 5); reflexivity.
Qed.

(** C4 (counterexample): a 404 page makes [downloadPage] reject with a
    [PageLoaderError] (code ERR_BAD_REQUEST), not an [HttpStatusError]; and
    a page answering 204, a status other than 200, is accepted: the run
    resolves and creates the resources directory. *)
Lemma downloadPage_status_counterexample :
  match snd (downloadPage Whatwg.new_URL (status_net 404) "https://example.com/page" "/tmp/out" [] w_out) with
  | inl e => e_name e = "PageLoaderError" /\ e_name e <> "HttpStatusError" /\
             e_code e = Some "ERR_BAD_REQUEST" /\ e_message e = "Request failed with status 404"
  | inr _ => False
  end /\
  let r := downloadPage Whatwg.new_URL (status_net 204) "https://example.com/page" "/tmp/out" [] w_out in
  snd r = inr (JsString "/tmp/out/example-com-page.html") /\
  fs (fst r) !! "/tmp/out/example-com-page_files" = Some (Dir true).
Proof. vm_compute. repeat split; discriminate. Qed.

(** C4 (amended): when the main page answers with a status outside 2xx,
    [downloadPage] rejects with a [PageLoaderError] whose message is
    "Request failed with status N" and whose code is axios's
    (ERR_BAD_REQUEST for 4xx, ERR_BAD_RESPONSE for 5xx); the page request
    is the only request sent and the file system is unchanged, so no
    resources directory is created. *)
Theorem downloadPage_rejects_non_2xx new_URL net url outputDir order w s d
  (Hdir : match fs w !! outputDir with Some n => node_writable n | None => false end = true)
  (Hurl : match new_URL url None with Some _ => true | None => false end = true)
  (Hnet : net url = Http s d)
  (Hs : default_validate s = false) :
  downloadPage new_URL net url outputDir order w =
  (mkWorld (fs w) (reqs w ++ [url]),
   inl (PageLoaderError ("Request failed with status " +++ nat_to_string s) (axios_status_code s))).
Proof.
  unfold downloadPage, catch, bind at 1.
  rewrite (fs_access_ok _ _ Hdir). unfold bind at 1. unfold axios_get, bind at 1, axios_issue.
  destruct (new_URL url None); [|discriminate].
  unfold axios_settle. rewrite Hnet, Hs. unfold throw.
  rewrite classify_status_error. reflexivity.
Qed.

Lemma downloadPage_rejects_non_2xx_witness :
  downloadPage Whatwg.new_URL (status_net 404) "https://example.com/page" "/tmp/out" [] w_out =
  (mkWorld (fs w_out) (reqs w_out ++ ["https://example.com/page"]),
   inl (PageLoaderError ("Request failed with status " +++ nat_to_string 404) (axios_status_code 404))).
Proof.
  apply (downloadPage_rejects_non_2xx Whatwg.new_URL (status_net 404) "https://example.com/page"
           "/tmp/out" [] w_out 404 (Doc [])); vm_compute; reflexivity.
Defined.

(** *** C9 *)

(** C9: when [fs.access(outputDir, W_OK)] fails (the directory is
    read-only, missing, or below a regular file), [downloadPage] rejects
    with a [PageLoaderError]: EACCES with "Output directory is not
    writable: <dir>", or ENOENT or ENOTDIR with Node's message; the world
    is returned unchanged: no request was sent and no file was touched. *)
Theorem downloadPage_checks_dir_first new_URL net url outputDir order w code
  (Hdir : access_error (fs w) outputDir = Some code) :
  (code = "EACCES" /\
   downloadPage new_URL net url outputDir order w =
   (w, inl (PageLoaderError ("Output directory is not writable: " +++ outputDir) (Some "EACCES")))) \/
  (code = "ENOENT" /\
   downloadPage new_URL net url outputDir order w =
   (w, inl (PageLoaderError ("ENOENT: no such file or directory, access '" +++ outputDir +++ "'")
                            (Some "ENOENT")))) \/
  (code = "ENOTDIR" /\
   downloadPage new_URL net url outputDir order w =
   (w, inl (PageLoaderError ("ENOTDIR: not a directory, access '" +++ outputDir +++ "'")
                            (Some "ENOTDIR")))).
Proof.
  assert (E : downloadPage new_URL net url outputDir order w =
    (w, inl (PageLoaderError (classify_message url outputDir (fs_error code "access" outputDir))
                             (Some code)))).
  { unfold downloadPage, catch, bind at 1, fs_access at 1, throw. now rewrite Hdir. }
  rewrite E.
  destruct (access_error_code _ _ _ Hdir) as [-> | [-> | ->]];
    [left | right; left | right; right]; split; reflexivity.
Qed.

Lemma downloadPage_checks_dir_first_witness :
  access_error (fs w_out) "/tmp/readonly" = Some "EACCES" /\
  ((("EACCES" = "EACCES") /\
    downloadPage Whatwg.new_URL hexlet_net "https://ru.hexlet.io/courses" "/tmp/readonly" [0] w_out =
    (w_out, inl (PageLoaderError ("Output directory is not writable: " +++ "/tmp/readonly")
                                 (Some "EACCES")))) \/
   ("EACCES" = "ENOENT" /\
    downloadPage Whatwg.new_URL hexlet_net "https://ru.hexlet.io/courses" "/tmp/readonly" [0] w_out =
    (w_out, inl (PageLoaderError ("ENOENT: no such file or directory, access '" +++ "/tmp/readonly" +++ "'")
                                 (Some "ENOENT")))) \/
   ("EACCES" = "ENOTDIR" /\
    downloadPage Whatwg.new_URL hexlet_net "https://ru.hexlet.io/courses" "/tmp/readonly" [0] w_out =
    (w_out, inl (PageLoaderError ("ENOTDIR: not a directory, access '" +++ "/tmp/readonly" +++ "'")
                                 (Some "ENOTDIR"))))).
Proof.
  split; [vm_compute; reflexivity|].
  apply (downloadPage_checks_dir_first Whatwg.new_URL hexlet_net "https://ru.hexlet.io/courses"
           "/tmp/readonly" [0] w_out "EACCES"). vm_compute. reflexivity.
Defined.

(** *** Running the tasks of [processHtmlWithProgress] *)

Lemma lookup_map {A B} (g : A -> B) (l : list A) (i : nat) :
  map g l !! i = option_map g (l !! i).
Proof. revert i. induction l as [|x l IH]; intros [|i]; simpl; auto. Qed.

Lemma world_eta (w : World) : mkWorld (fs w) (reqs w) = w.
Proof. destruct w; reflexivity. Qed.

(** Writing a file where [writeFile] succeeds changes for no path whether
    [writeFile] succeeds there. *)
Lemma write_ok_insert_file (f : gmap string node) (q p : string) (c : content) :
  write_ok f q = true -> write_ok (<[q := File true c]> f) p = write_ok f p.
Proof.
  intros H. destruct (decide (p = q)) as [->|Hne].
  - rewrite H. unfold write_ok, write_error. now rewrite lookup_insert_eq.
  - unfold write_ok, write_error. rewrite lookup_insert_ne by congruence.
    destruct (f !! p) eqn:Ep; [reflexivity|].
    destruct (decide (Path.dirname p = q)) as [<-|Hd].
    + rewrite lookup_insert_eq. unfold write_ok, write_error in H.
      destruct (f !! Path.dirname p) as [[wr|wr c']|]; [discriminate| |reflexivity].
      destruct wr; [reflexivity|discriminate].
    + rewrite lookup_insert_ne by congruence. reflexivity.
Qed.

Lemma task_issue_run new_URL baseUrl resourcesDir r w :
  task_issue new_URL baseUrl resourcesDir r w =
  (mkWorld (fs w) (reqs w ++ match task_pending new_URL baseUrl resourcesDir r with
                              | PIssued a _ _ => [a] | PFailed => [] end),
   inr (task_pending new_URL baseUrl resourcesDir r)).
Proof.
  unfold task_issue, task_pending.
  destruct (dr_prepare new_URL baseUrl (resource_url baseUrl r) resourcesDir)
    as [[[a fn] fp]|].
  - unfold catch, bind, axios_issue, ret.
    destruct (new_URL a None); [reflexivity|]. now rewrite app_nil_r, world_eta.
  - unfold ret. now rewrite app_nil_r, world_eta.
Qed.

(** Listr starts every task: one GET per task whose URL resolves, in task
    order. *)
Lemma mapM_task_issue new_URL baseUrl resourcesDir rs w :
  mapM (task_issue new_URL baseUrl resourcesDir) rs w =
  (mkWorld (fs w) (reqs w ++ issued_urls new_URL baseUrl resourcesDir rs),
   inr (map (task_pending new_URL baseUrl resourcesDir) rs)).
Proof.
  revert w. induction rs as [|r rs IH]; intros w.
  - simpl. unfold ret. now rewrite app_nil_r, world_eta.
  - cbn [mapM]. unfold bind at 1. rewrite task_issue_run.
    unfold bind at 1. rewrite IH. unfold ret. simpl.
    now rewrite <- app_assoc.
Qed.

(** Completing one task, while every [writeFile] succeeds where it does in
    [f0]: the markup changes as [settle_pure] says, the file system as
    [settle_fs] says, and no request is sent. *)
Lemma task_settle_step new_URL net f0 baseUrl resourcesDir rs dom i w :
  (forall q, write_ok (fs w) q = write_ok f0 q) ->
  task_settle net resourcesDir rs (map (task_pending new_URL baseUrl resourcesDir) rs) dom i w =
  (mkWorld (settle_fs new_URL net f0 baseUrl resourcesDir rs (fs w) i) (reqs w),
   inr (settle_pure new_URL net f0 baseUrl resourcesDir rs dom i)).
Proof.
  intros Hinv. unfold task_settle, settle_fs, settle_pure. rewrite lookup_map.
  destruct (rs !! i) as [r|]; cbn [option_map]; [|unfold ret; now rewrite world_eta].
  unfold download_outcome.
  destruct (task_pending new_URL baseUrl resourcesDir r) as [|a fn fp] eqn:Ep.
  - unfold dr_complete, bind, ret. destruct r; now rewrite world_eta.
  - unfold dr_complete, catch, bind, axios_settle, ret, throw.
    destruct (net a) as [s data|code msg] eqn:En.
    + destruct (s =? 200) eqn:Es; cbn [andb].
      * unfold fs_writeFile. specialize (Hinv fp). unfold write_ok in Hinv at 1.
        destruct (write_error (fs w) fp) eqn:Ew; rewrite <- Hinv.
        -- destruct r; now rewrite world_eta.
        -- destruct r; reflexivity.
      * destruct r; now rewrite world_eta.
    + destruct r; now rewrite world_eta.
Qed.

Lemma download_outcome_some new_URL net f0 baseUrl resourcesDir r fn :
  download_outcome new_URL net f0 baseUrl resourcesDir r = Some fn ->
  exists a fp data, task_pending new_URL baseUrl resourcesDir r = PIssued a fn fp /\
    net a = Http 200 data /\ write_ok f0 fp = true.
Proof.
  unfold download_outcome.
  destruct (task_pending new_URL baseUrl resourcesDir r) as [|a fn' fp]; [discriminate|].
  destruct (net a) as [s data|] eqn:En; [|discriminate].
  destruct (s =? 200) eqn:Es; [|discriminate].
  destruct (write_ok f0 fp) eqn:Ew; [|discriminate].
  intros H. injection H as <-. apply Nat.eqb_eq in Es as ->. now exists a, fp, data.
Qed.

Lemma settle_fs_cases new_URL net f0 baseUrl resourcesDir rs f i :
  settle_fs new_URL net f0 baseUrl resourcesDir rs f i = f \/
  exists r a fn fp data, rs !! i = Some r /\
    task_pending new_URL baseUrl resourcesDir r = PIssued a fn fp /\
    download_outcome new_URL net f0 baseUrl resourcesDir r = Some fn /\
    net a = Http 200 data /\
    settle_fs new_URL net f0 baseUrl resourcesDir rs f i = <[fp := File true data]> f.
Proof.
  unfold settle_fs. destruct (rs !! i) as [r|]; [|now left].
  destruct (download_outcome new_URL net f0 baseUrl resourcesDir r) as [fn|] eqn:Eo; [|now left].
  pose proof (download_outcome_some _ _ _ _ _ _ _ Eo) as (a & fp & data & Ep & En & _).
  rewrite Ep, En. right. exists r, a, fn, fp, data. auto.
Qed.

Lemma settle_fs_success new_URL net f0 baseUrl resourcesDir rs f i r a fn fp :
  rs !! i = Some r ->
  task_pending new_URL baseUrl resourcesDir r = PIssued a fn fp ->
  download_outcome new_URL net f0 baseUrl resourcesDir r = Some fn ->
  exists data, settle_fs new_URL net f0 baseUrl resourcesDir rs f i = <[fp := File true data]> f.
Proof.
  intros Hi Hp Ho. unfold settle_fs. rewrite Hi, Ho, Hp.
  pose proof (download_outcome_some _ _ _ _ _ _ _ Ho) as (a' & fp' & data & Ep & En & _).
  rewrite Hp in Ep. injection Ep as <- <-. rewrite En. eauto.
Qed.

Lemma settle_fs_write_ok new_URL net f0 baseUrl resourcesDir rs f i :
  (forall q, write_ok f q = write_ok f0 q) ->
  forall q, write_ok (settle_fs new_URL net f0 baseUrl resourcesDir rs f i) q = write_ok f0 q.
Proof.
  intros Hinv q.
  destruct (settle_fs_cases new_URL net f0 baseUrl resourcesDir rs f i)
    as [->|(r & a & fn & fp & data & _ & Hp & Ho & _ & ->)]; [auto|].
  pose proof (download_outcome_some _ _ _ _ _ _ _ Ho) as (a' & fp' & data' & Ep & _ & Hw).
  rewrite Hp in Ep. injection Ep as <- <-.
  rewrite write_ok_insert_file; [auto|]. now rewrite Hinv.
Qed.

Lemma fold_settle_write_ok new_URL net f0 baseUrl resourcesDir rs order f :
  (forall q, write_ok f q = write_ok f0 q) ->
  forall q, write_ok (fold_left (settle_fs new_URL net f0 baseUrl resourcesDir rs) order f) q
            = write_ok f0 q.
Proof.
  revert f. induction order as [|i order IH]; intros f Hinv; simpl; [auto|].
  apply IH. now apply settle_fs_write_ok.
Qed.

Lemma foldM_task_settle new_URL net f0 baseUrl resourcesDir rs order dom w :
  (forall q, write_ok (fs w) q = write_ok f0 q) ->
  foldM (task_settle net resourcesDir rs (map (task_pending new_URL baseUrl resourcesDir) rs))
        order dom w =
  (mkWorld (fold_left (settle_fs new_URL net f0 baseUrl resourcesDir rs) order (fs w)) (reqs w),
   inr (fold_left (settle_pure new_URL net f0 baseUrl resourcesDir rs) order dom)).
Proof.
  revert dom w. induction order as [|i order IH]; intros dom w Hinv.
  - simpl. unfold ret. now rewrite world_eta.
  - cbn [foldM fold_left]. unfold bind at 1. rewrite (task_settle_step new_URL net f0) by exact Hinv.
    rewrite IH; [reflexivity|]. simpl. now apply settle_fs_write_ok.
Qed.

Lemma fold_settle_no_resources new_URL net f0 baseUrl resourcesDir order f dom :
  fold_left (settle_fs new_URL net f0 baseUrl resourcesDir []) order f = f /\
  fold_left (settle_pure new_URL net f0 baseUrl resourcesDir []) order dom = dom.
Proof.
  revert f dom. induction order as [|i order IH]; intros f dom; simpl; [auto|].
  unfold settle_fs at 2, settle_pure at 2. rewrite lookup_nil. apply IH.
Qed.

(** [processHtmlWithProgress] as a whole: all requests first, then the
    completions in the order [order], each decided by the file system the
    run started with. *)
Lemma processHtml_run new_URL net html baseUrl resourcesDir order w :
  let rs := scan_resources new_URL (cheerio_load html) baseUrl in
  processHtmlWithProgress new_URL net html baseUrl resourcesDir order w =
  (mkWorld (fold_left (settle_fs new_URL net (fs w) baseUrl resourcesDir rs) order (fs w))
           (reqs w ++ issued_urls new_URL baseUrl resourcesDir rs),
   inr (fold_left (settle_pure new_URL net (fs w) baseUrl resourcesDir rs) order (cheerio_load html))).
Proof.
  intros rs. unfold processHtmlWithProgress. fold rs.
  destruct rs as [|r rs'] eqn:Ers.
  - destruct (fold_settle_no_resources new_URL net (fs w) baseUrl resourcesDir order (fs w)
                (cheerio_load html)) as [-> ->].
    simpl. unfold ret. now rewrite app_nil_r, world_eta.
  - rewrite <- Ers. unfold bind at 1. rewrite mapM_task_issue.
    rewrite foldM_task_settle with (f0 := fs w); reflexivity.
Qed.

(** *** The scanned resources *)

Lemma res_idxs_In (rs : list resource) (k : nat) :
  In k (res_idxs rs) <-> exists u a, In (ElemRes k u a) rs.
Proof.
  unfold res_idxs. rewrite in_flat_map. split.
  - intros ([|k' u a] & Hin & Hk); [contradiction|].
    destruct Hk as [<-|[]]. eauto.
  - intros (u & a & Hin). exists (ElemRes k u a). simpl. auto.
Qed.

Lemma res_idxs_app (l k : list resource) : res_idxs (l ++ k) = res_idxs l ++ res_idxs k.
Proof. unfold res_idxs. apply flat_map_app. Qed.

Lemma scan_from_spec new_URL baseUrl sel attr i els k u a :
  In (ElemRes k u a) (scan_from new_URL baseUrl sel attr i els) ->
  i <= k /\ a = attr /\
  exists e, els !! (k - i) = Some e /\ sel e = true /\ get_attr e attr = Some u.
Proof.
  revert i. induction els as [|e els IH]; intros i H; simpl in H; [contradiction|].
  assert (Htail : In (ElemRes k u a) (scan_from new_URL baseUrl sel attr (S i) els) ->
          i <= k /\ a = attr /\
          exists e', (e :: els) !! (k - i) = Some e' /\ sel e' = true /\ get_attr e' attr = Some u).
  { intros Ht. destruct (IH (S i) Ht) as (Hle & Ha & e' & He & Hs & Hg).
    split; [lia|]. split; [exact Ha|]. exists e'.
    replace (k - i) with (S (k - S i)) by lia. auto. }
  destruct (sel e) eqn:Hs; [|auto].
  destruct (get_attr e attr) as [v|] eqn:Hg; [|auto].
  destruct (negb (String.eqb v "") && isLocalResource new_URL baseUrl v); [|auto].
  destruct H as [H|H]; [|auto].
  injection H as -> -> ->. split; [lia|]. split; [reflexivity|].
  exists e. rewrite Nat.sub_diag. auto.
Qed.

Lemma scan_from_idxs new_URL baseUrl sel attr i els :
  NoDup (res_idxs (scan_from new_URL baseUrl sel attr i els)) /\
  forall k, In k (res_idxs (scan_from new_URL baseUrl sel attr i els)) -> i <= k.
Proof.
  split.
  - revert i. induction els as [|e els IH]; intros i; simpl; [constructor|].
    destruct (sel e); [|apply IH].
    destruct (get_attr e attr); [|apply IH].
    destruct (_ && _); [|apply IH].
    change (NoDup (i :: res_idxs (scan_from new_URL baseUrl sel attr (S i) els))).
    constructor; [|apply IH].
    intros Hin. rewrite ?list_elem_of_In in Hin. apply res_idxs_In in Hin as (u & a & Hin).
    apply scan_from_spec in Hin. lia.
  - intros k Hin. apply res_idxs_In in Hin as (u & a & Hin).
    apply scan_from_spec in Hin. lia.
Qed.

Lemma sel_img_tag e : sel_img e = true -> tag e = "img".
Proof. unfold sel_img. intros H. apply andb_prop in H as [H _]. now apply String.eqb_eq. Qed.
Lemma sel_link_tag e : sel_link e = true -> tag e = "link".
Proof.
  unfold sel_link. intros H. apply andb_prop in H as [H _]. apply andb_prop in H as [H _].
  now apply String.eqb_eq.
Qed.
Lemma sel_script_tag e : sel_script e = true -> tag e = "script".
Proof. unfold sel_script. intros H. apply andb_prop in H as [H _]. now apply String.eqb_eq. Qed.
Lemma sel_a_tag e : sel_a e = true -> tag e = "a".
Proof. unfold sel_a. intros H. apply andb_prop in H as [H _]. now apply String.eqb_eq. Qed.

(** Two selectors that no element satisfies both scan disjoint indices. *)
Lemma scan_from_disjoint new_URL baseUrl s1 a1 s2 a2 dom k :
  (forall e, s1 e = true -> s2 e = true -> False) ->
  In k (res_idxs (scan_from new_URL baseUrl s1 a1 0 dom)) ->
  ~ In k (res_idxs (scan_from new_URL baseUrl s2 a2 0 dom)).
Proof.
  intros Hdis H1 H2.
  apply res_idxs_In in H1 as (u1 & b1 & H1). apply res_idxs_In in H2 as (u2 & b2 & H2).
  apply scan_from_spec in H1 as (_ & _ & e1 & E1 & S1 & _).
  apply scan_from_spec in H2 as (_ & _ & e2 & E2 & S2 & _).
  rewrite E1 in E2. injection E2 as <-. eauto.
Qed.

Lemma NoDup_app_In {A} (l k : list A) :
  NoDup l -> NoDup k -> (forall x, In x l -> ~ In x k) -> NoDup (l ++ k).
Proof.
  intros Hl Hk Hd. apply NoDup_app. split; [exact Hl|]. split; [|exact Hk].
  intros x Hx Hx'. apply list_elem_of_In in Hx, Hx'. exact (Hd x Hx Hx').
Qed.

(** An element matches at most one of the four selectors and appears once
    in each scan, so no two scanned resources share an element. *)
Lemma scan_resources_NoDup new_URL dom baseUrl :
  NoDup (res_idxs (scan_resources new_URL dom baseUrl)).
Proof.
  unfold scan_resources, tagsToProcess. cbn [flat_map]. rewrite app_nil_r.
  rewrite res_idxs_app.
  replace (res_idxs (if ends_with baseUrl ".html" then [MainPage] else [])) with (@nil nat)
    by (destruct (ends_with baseUrl ".html"); reflexivity).
  simpl app. rewrite !res_idxs_app.
  assert (D : forall s1 a1 s2 a2 (t1 t2 : string),
             t1 <> t2 ->
             (forall e, s1 e = true -> tag e = t1) -> (forall e, s2 e = true -> tag e = t2) ->
             forall k, In k (res_idxs (scan_from new_URL baseUrl s1 a1 0 dom)) ->
                       ~ In k (res_idxs (scan_from new_URL baseUrl s2 a2 0 dom))).
  { intros s1 a1 s2 a2 t1 t2 Ht T1 T2 k. apply scan_from_disjoint.
    intros e H1 H2. apply T1 in H1. apply T2 in H2. congruence. }
  pose proof sel_img_tag as T1. pose proof sel_link_tag as T2.
  pose proof sel_script_tag as T3. pose proof sel_a_tag as T4.
  assert (Hn : forall s a, NoDup (res_idxs (scan_from new_URL baseUrl s a 0 dom)))
    by (intros; apply scan_from_idxs).
  repeat (apply NoDup_app_In; [apply Hn| |]); [apply Hn| ..];
    intros x Hx; rewrite ?in_app_iff; intros Hy; decompose [or] Hy;
    match goal with
    | H2 : In x _ |- False =>
        tryif constr_eq H2 Hx then fail
        else ((refine (D _ _ _ _ _ _ _ _ _ x Hx H2); [ | eassumption | eassumption ]); discriminate)
    end.
Qed.

Lemma res_idxs_lookup (rs : list resource) j k u a :
  rs !! j = Some (ElemRes k u a) -> In k (res_idxs rs).
Proof.
  intros H. apply res_idxs_In. exists u, a.
  apply list_elem_of_In. eapply list_elem_of_lookup_2. exact H.
Qed.

Lemma res_idxs_unique (rs : list resource) i j k u a u' a' :
  NoDup (res_idxs rs) ->
  rs !! i = Some (ElemRes k u a) -> rs !! j = Some (ElemRes k u' a') -> i = j.
Proof.
  revert i j. induction rs as [|r rs IH]; intros i j Hnd Hi Hj; [discriminate|].
  change (res_idxs (r :: rs)) with
    ((match r with ElemRes i _ _ => [i] | MainPage => [] end) ++ res_idxs rs) in Hnd.
  apply NoDup_app in Hnd as (_ & Hdis & Hnd).
  destruct i as [|i], j as [|j]; simpl in Hi, Hj; auto.
  - injection Hi as ->. exfalso. apply (Hdis k); [left|].
    apply list_elem_of_In. eapply res_idxs_lookup. exact Hj.
  - injection Hj as ->. exfalso. apply (Hdis k); [left|].
    apply list_elem_of_In. eapply res_idxs_lookup. exact Hi.
Qed.

Lemma scan_resources_spec new_URL dom baseUrl k u a :
  In (ElemRes k u a) (scan_resources new_URL dom baseUrl) ->
  exists e, dom !! k = Some e /\ get_attr e a = Some u.
Proof.
  unfold scan_resources. rewrite in_app_iff. intros [H|H].
  - destruct (ends_with baseUrl ".html"); simpl in H; [destruct H as [H|[]]|]; easy.
  - apply in_flat_map in H as ([sel attr] & _ & H).
    apply scan_from_spec in H as (_ & -> & e & He & _ & Hg).
    rewrite Nat.sub_0_r in He. eauto.
Qed.

(** *** The markup after the completions *)

Lemma get_attr_set_attr (e : element) (a v : string) : get_attr (set_attr e a v) a = Some v.
Proof.
  unfold get_attr, set_attr. simpl. induction (attrs e) as [|[k x] l IH]; simpl.
  - now rewrite String.eqb_refl.
  - destruct (String.eqb k a) eqn:E; simpl; rewrite ?E; auto.
Qed.

Lemma set_attr_at_length dom idx a v : length (set_attr_at dom idx a v) = length dom.
Proof. unfold set_attr_at. destruct (dom !! idx); [apply length_insert|reflexivity]. Qed.

Lemma set_attr_at_ne dom idx a v k : idx <> k -> set_attr_at dom idx a v !! k = dom !! k.
Proof.
  intros Hne. unfold set_attr_at. destruct (dom !! idx); [|reflexivity].
  now apply list_lookup_insert_ne.
Qed.

Lemma set_attr_at_eq dom idx a v e :
  dom !! idx = Some e -> set_attr_at dom idx a v !! idx = Some (set_attr e a v).
Proof.
  intros He. unfold set_attr_at. rewrite He. apply list_lookup_insert_eq.
  eapply lookup_lt_Some. exact He.
Qed.

Lemma fold_settle_pure_length new_URL net f0 baseUrl resourcesDir rs order dom :
  length (fold_left (settle_pure new_URL net f0 baseUrl resourcesDir rs) order dom) = length dom.
Proof.
  revert dom. induction order as [|i order IH]; intros dom; simpl; [reflexivity|].
  rewrite IH. unfold settle_pure.
  destruct (rs !! i) as [[|idx u a]|]; try reflexivity.
  destruct (download_outcome _ _ _ _ _ _); [apply set_attr_at_length|reflexivity].
Qed.

(** Completions of tasks of other elements leave an element as it is. *)
Lemma fold_settle_pure_other new_URL net f0 baseUrl resourcesDir rs order dom k :
  (forall j u a, In j order -> rs !! j <> Some (ElemRes k u a)) ->
  fold_left (settle_pure new_URL net f0 baseUrl resourcesDir rs) order dom !! k = dom !! k.
Proof.
  revert dom. induction order as [|j order IH]; intros dom Hother; simpl; [reflexivity|].
  rewrite IH by (intros; apply Hother; simpl; auto).
  unfold settle_pure.
  destruct (rs !! j) as [[|idx u a]|] eqn:Ej; try reflexivity.
  destruct (download_outcome _ _ _ _ _ _); [|reflexivity].
  apply set_attr_at_ne. intros ->. exact (Hother j u a (or_introl eq_refl) Ej).
Qed.

(** The element of a scanned resource ends rewritten exactly when its
    download succeeded, by the completion of its own task. *)
Lemma fold_settle_pure_at new_URL net f0 baseUrl resourcesDir rs order dom i k u a e :
  NoDup (res_idxs rs) -> List.NoDup order -> In i order ->
  rs !! i = Some (ElemRes k u a) -> dom !! k = Some e ->
  fold_left (settle_pure new_URL net f0 baseUrl resourcesDir rs) order dom !! k =
  Some (match download_outcome new_URL net f0 baseUrl resourcesDir (ElemRes k u a) with
        | Some fn => set_attr e a (local_path resourcesDir fn)
        | None => e
        end).
Proof.
  intros Hnd Hord Hin Hi He.
  apply in_split in Hin as (l1 & l2 & ->).
  pose proof (NoDup_remove_2 _ _ _ Hord) as Hni. rewrite in_app_iff in Hni.
  assert (Hother : forall l, (forall j, In j l -> j <> i) ->
                   forall j u' a', In j l -> rs !! j <> Some (ElemRes k u' a')).
  { intros l Hl j u' a' Hj Ej. apply (Hl j Hj). symmetry.
    exact (res_idxs_unique rs i j k u a u' a' Hnd Hi Ej). }
  rewrite fold_left_app. simpl.
  rewrite fold_settle_pure_other
    by (apply Hother; intros j Hj ->; apply Hni; auto).
  unfold settle_pure at 1. rewrite Hi.
  assert (He1 : fold_left (settle_pure new_URL net f0 baseUrl resourcesDir rs) l1 dom !! k = Some e).
  { rewrite fold_settle_pure_other; [exact He|].
    apply Hother. intros j Hj ->. apply Hni. auto. }
  destruct (download_outcome new_URL net f0 baseUrl resourcesDir (ElemRes k u a)).
  - now apply set_attr_at_eq.
  - exact He1.
Qed.

(** Listr runs every task once: a scheduling order is a permutation of the
    task indices. *)
Lemma order_complete (order : list nat) (n : nat) :
  Permutation order (seq 0 n) -> List.NoDup order /\ (forall i, i < n -> In i order).
Proof.
  intros H. split.
  - apply (Permutation_NoDup (Permutation_sym H)), seq_NoDup.
  - intros i Hi. apply (Permutation_in _ (Permutation_sym H)). apply in_seq. lia.
Qed.

(** *** C1 *)

(** C1: whatever order the downloads complete in, the markup
    [processHtmlWithProgress] returns (and [downloadPage] serializes) has
    the same elements, and for every scanned resource reference the
    element's attribute, authored as [url], ends as the local path
    [basename(resourcesDir)/fileName] when the resource's download
    succeeded, and as [url], unchanged, when it failed. *)
Theorem processHtml_rewrites_only_successes new_URL net html baseUrl resourcesDir order w
  (Horder : Permutation order
              (seq 0 (length (scan_resources new_URL (cheerio_load html) baseUrl)))) :
  exists w' dom',
    processHtmlWithProgress new_URL net html baseUrl resourcesDir order w = (w', inr dom') /\
    length dom' = length (cheerio_load html) /\
    forall idx url attr,
      In (ElemRes idx url attr) (scan_resources new_URL (cheerio_load html) baseUrl) ->
      exists e e',
        cheerio_load html !! idx = Some e /\ get_attr e attr = Some url /\
        dom' !! idx = Some e' /\
        get_attr e' attr =
          Some (match download_outcome new_URL net (fs w) baseUrl resourcesDir
                        (ElemRes idx url attr) with
                | Some filename => local_path resourcesDir filename
                | None => url
                end).
Proof.
  pose proof (processHtml_run new_URL net html baseUrl resourcesDir order w) as R.
  cbv zeta in R.
  set (rs := scan_resources new_URL (cheerio_load html) baseUrl) in *.
  eexists _, _. split; [exact R|]. split; [apply fold_settle_pure_length|].
  intros idx url attr Hin.
  destruct (scan_resources_spec _ _ _ _ _ _ Hin) as (e & He & Hg).
  apply list_elem_of_In, list_elem_of_lookup_1 in Hin as (i & Hi).
  destruct (order_complete order (length rs) Horder) as [Hnd Hall].
  rewrite (fold_settle_pure_at new_URL net (fs w) baseUrl resourcesDir rs order
             (cheerio_load html) i idx url attr e (scan_resources_NoDup _ _ _) Hnd
             (Hall i (lookup_lt_Some _ _ _ Hi)) Hi He).
  eexists e, _. split; [exact He|]. split; [exact Hg|]. split; [reflexivity|].
  destruct (download_outcome _ _ _ _ _ _); [apply get_attr_set_attr | exact Hg].
Qed.

Lemma processHtml_rewrites_only_successes_witness :
  exists w' dom',
    processHtmlWithProgress Whatwg.new_URL partial_net partial_page "https://example.com"
      "/tmp/out/example-com_files" [0; 1] (fst (fs_mkdir_p "/tmp/out/example-com_files" w_out))
      = (w', inr dom') /\
    length dom' = length (cheerio_load partial_page) /\
    forall idx url attr,
      In (ElemRes idx url attr)
         (scan_resources Whatwg.new_URL (cheerio_load partial_page) "https://example.com") ->
      exists e e',
        cheerio_load partial_page !! idx = Some e /\ get_attr e attr = Some url /\
        dom' !! idx = Some e' /\
        get_attr e' attr =
          Some (match download_outcome Whatwg.new_URL partial_net
                        (fs (fst (fs_mkdir_p "/tmp/out/example-com_files" w_out)))
                        "https://example.com" "/tmp/out/example-com_files"
                        (ElemRes idx url attr) with
                | Some filename => local_path "/tmp/out/example-com_files" filename
                | None => url
                end).
Proof.
  apply processHtml_rewrites_only_successes. vm_compute. reflexivity.
Defined.

(** *** The files after the completions *)

Lemma bind_ok {A B} (m : M A) (k : A -> M B) w w1 a :
  m w = (w1, inr a) -> bind m k w = k a w1.
Proof. unfold bind. now intros ->. Qed.

Lemma fold_settle_fs_keep_file new_URL net f0 baseUrl resourcesDir rs order f p c :
  f !! p = Some (File true c) ->
  exists c', fold_left (settle_fs new_URL net f0 baseUrl resourcesDir rs) order f !! p
             = Some (File true c').
Proof.
  revert f c. induction order as [|i order IH]; intros f c Hp; simpl; [eauto|].
  destruct (settle_fs_cases new_URL net f0 baseUrl resourcesDir rs f i)
    as [E|(r & a & fn & fp & data & _ & _ & _ & _ & E)]; rewrite E.
  - eapply IH. exact Hp.
  - destruct (decide (p = fp)) as [->|Hne].
    + eapply IH. apply lookup_insert_eq.
    + eapply IH. rewrite lookup_insert_ne by congruence. exact Hp.
Qed.

(** A path the completions change holds the file of a resource whose
    download succeeded. *)
Lemma fold_settle_fs_provenance new_URL net f0 baseUrl resourcesDir rs order f p :
  fold_left (settle_fs new_URL net f0 baseUrl resourcesDir rs) order f !! p = f !! p \/
  exists i r a fn, In i order /\ rs !! i = Some r /\
    task_pending new_URL baseUrl resourcesDir r = PIssued a fn p /\
    download_outcome new_URL net f0 baseUrl resourcesDir r = Some fn.
Proof.
  revert f. induction order as [|i order IH]; intros f; simpl; [now left|].
  destruct (IH (settle_fs new_URL net f0 baseUrl resourcesDir rs f i))
    as [E|(j & r & a & fn & Hj & H)]; [|right; exists j, r, a, fn; auto].
  rewrite E.
  destruct (settle_fs_cases new_URL net f0 baseUrl resourcesDir rs f i)
    as [E'|(r & a & fn & fp & data & Hi & Hp & Ho & _ & E')]; rewrite E'; [now left|].
  destruct (decide (p = fp)) as [->|Hne].
  - right. exists i, r, a, fn. auto.
  - left. now rewrite lookup_insert_ne by congruence.
Qed.

(** Every task whose download succeeded has left its file. *)
Lemma fold_settle_fs_present new_URL net f0 baseUrl resourcesDir rs order f i r a fn p :
  In i order -> rs !! i = Some r ->
  task_pending new_URL baseUrl resourcesDir r = PIssued a fn p ->
  download_outcome new_URL net f0 baseUrl resourcesDir r = Some fn ->
  exists c, fold_left (settle_fs new_URL net f0 baseUrl resourcesDir rs) order f !! p
            = Some (File true c).
Proof.
  intros Hin Hi Hp Ho. revert f. induction order as [|j order IH]; intros f;
    [contradiction|]. simpl.
  destruct Hin as [->|Hin]; [|now apply IH].
  destruct (settle_fs_success new_URL net f0 baseUrl resourcesDir rs f i r a fn p Hi Hp Ho)
    as (data & ->).
  eapply fold_settle_fs_keep_file. apply lookup_insert_eq.
Qed.

(** Directories are never replaced: a task writes only where [writeFile]
    succeeds, which is never a directory. *)
Lemma fold_settle_fs_dir new_URL net f0 baseUrl resourcesDir rs order f p b :
  (forall q, write_ok f q = write_ok f0 q) -> f !! p = Some (Dir b) ->
  fold_left (settle_fs new_URL net f0 baseUrl resourcesDir rs) order f !! p = Some (Dir b).
Proof.
  intros Hinv Hp.
  destruct (fold_settle_fs_provenance new_URL net f0 baseUrl resourcesDir rs order f p)
    as [->|(i & r & a & fn & _ & _ & Hpend & Ho)]; [exact Hp|].
  apply download_outcome_some in Ho as (a' & fp & data & Ep & _ & Hw).
  rewrite Hpend in Ep. injection Ep as <- <-.
  rewrite <- Hinv in Hw. unfold write_ok, write_error in Hw. rewrite Hp in Hw. discriminate.
Qed.

Lemma mkdirp_go_reqs fuel target p w w' r :
  mkdirp_go fuel target p w = (w', r) -> reqs w' = reqs w.
Proof.
  revert p w w' r. induction fuel as [|fuel IH]; intros p w w' r; simpl;
    destruct (fs w !! p) as [[]|]; try (intros H; injection H as <- _; reflexivity);
    destruct (fs w !! Path.dirname p) as [[[|]|]|]; try (intros H; injection H as <- _; reflexivity).
  destruct (mkdirp_go fuel target (Path.dirname p) w) as [w1 [e|u]] eqn:E1.
  - intros H. injection H as <- _. eapply IH. exact E1.
  - intros H. apply IH in H. apply IH in E1. congruence.
Qed.

(** [fs.mkdir(p, {recursive: true})], when it succeeds, leaves a directory
    at [p]. *)
Lemma mkdirp_go_dir fuel target p w w' :
  mkdirp_go fuel target p w = (w', inr tt) -> exists b, fs w' !! p = Some (Dir b).
Proof.
  revert p w w'. induction fuel as [|fuel IH]; intros p w w'; simpl;
    destruct (fs w !! p) as [[b|]|] eqn:Ep; try (intros H; injection H as <-; eauto; fail);
    try discriminate;
    destruct (fs w !! Path.dirname p) as [[[|]|]|]; try discriminate;
    try (intros H; injection H as <-; simpl; rewrite lookup_insert_eq; eauto; fail).
  destruct (mkdirp_go fuel target (Path.dirname p) w) as [w1 [e|u]]; [discriminate|].
  apply IH.
Qed.

(** *** C2 *)

(** C2: once the output directory is writable, the page is fetched (2xx),
    the resources directory is created and the page file can be written,
    [downloadPage] resolves, whatever the resources' downloads do: a GET is
    sent for every resource, and the only paths whose contents change
    after the resources directory exists are the page file and the files
    of resources whose download succeeded, each of which is present. *)
Theorem downloadPage_tolerates_resource_failures new_URL net url outputDir order w s d
    pageName w1
  (Hdir : match fs w !! outputDir with Some n => node_writable n | None => false end = true)
  (Hurl : match new_URL url None with Some _ => true | None => false end = true)
  (Hnet : net url = Http s d)
  (Hs : default_validate s = true)
  (Hname : generateFileName new_URL url false = Some pageName)
  (Hmk : fs_mkdir_p (resources_dir_of outputDir pageName) (mkWorld (fs w) (reqs w ++ [url]))
         = (w1, inr tt))
  (Hw : write_ok (fs w1) (Path.join outputDir pageName) = true)
  (Horder : Permutation order
              (seq 0 (length (scan_resources new_URL (cheerio_load d) url)))) :
  let resourcesDir := resources_dir_of outputDir pageName in
  let rs := scan_resources new_URL (cheerio_load d) url in
  exists w',
    downloadPage new_URL net url outputDir order w
      = (w', inr (JsString (Path.join outputDir pageName))) /\
    reqs w' = reqs w ++ url :: issued_urls new_URL url resourcesDir rs /\
    (forall p, fs w' !! p = fs w1 !! p \/ p = Path.join outputDir pageName \/
       exists r a filename, In r rs /\
         task_pending new_URL url resourcesDir r = PIssued a filename p /\
         download_outcome new_URL net (fs w1) url resourcesDir r = Some filename) /\
    (forall r a filename p, In r rs ->
       task_pending new_URL url resourcesDir r = PIssued a filename p ->
       download_outcome new_URL net (fs w1) url resourcesDir r = Some filename ->
       exists c, fs w' !! p = Some (File true c)).
Proof.
  intros rd rs.
  pose proof (processHtml_run new_URL net d url rd order w1) as R. cbv zeta in R. fold rs in R.
  set (f1 := fold_left (settle_fs new_URL net (fs w1) url rd rs) order (fs w1)) in R.
  set (dom' := fold_left (settle_pure new_URL net (fs w1) url rd rs) order (cheerio_load d)) in R.
  set (htmlPath := Path.join outputDir pageName) in *.
  assert (Hw1 : write_error f1 htmlPath = None).
  { pose proof (fold_settle_write_ok new_URL net (fs w1) url rd rs order (fs w1)
                  (fun q => eq_refl) htmlPath) as Hq.
    fold f1 in Hq. rewrite Hw in Hq. unfold write_ok in Hq.
    destruct (write_error f1 htmlPath); [discriminate|reflexivity]. }
  assert (A1 : fs_access outputDir w = (w, inr tt)).
  { exact (fs_access_ok _ _ Hdir). }
  assert (A2 : axios_get new_URL net default_validate url w
               = (mkWorld (fs w) (reqs w ++ [url]), inr d)).
  { unfold axios_get, bind, axios_issue. destruct (new_URL url None); [|discriminate].
    unfold axios_settle. now rewrite Hnet, Hs. }
  exists (mkWorld (<[htmlPath := File true (Doc dom')]> f1)
                  (reqs w1 ++ issued_urls new_URL url rd rs)).
  split; [|split; [|split]].
  - unfold downloadPage, catch. rewrite (bind_ok _ _ _ _ _ A1), (bind_ok _ _ _ _ _ A2).
    unfold generateFileName_m. rewrite Hname. unfold bind at 1, ret at 1. cbv beta zeta.
    rewrite (bind_ok _ _ _ _ _ Hmk), (bind_ok _ _ _ _ _ R).
    unfold bind, fs_writeFile, ret. simpl. fold htmlPath. now rewrite Hw1.
  - simpl. apply mkdirp_go_reqs in Hmk. rewrite Hmk. simpl. now rewrite <- app_assoc.
  - intros p. simpl. destruct (decide (p = htmlPath)) as [->|Hne]; [now right; left|].
    rewrite lookup_insert_ne by congruence.
    destruct (fold_settle_fs_provenance new_URL net (fs w1) url rd rs order (fs w1) p)
      as [E|(i & r & a & fn & _ & Hi & Hp & Ho)]; [now left|].
    right; right. exists r, a, fn. split; [|auto].
    apply list_elem_of_In. eapply list_elem_of_lookup_2. exact Hi.
  - intros r a fn p Hin Hp Ho. simpl.
    destruct (decide (p = htmlPath)) as [->|Hne]; [rewrite lookup_insert_eq; eauto|].
    rewrite lookup_insert_ne by congruence.
    apply list_elem_of_In, list_elem_of_lookup_1 in Hin as (i & Hi).
    destruct (order_complete order (length rs) Horder) as [_ Hall].
    eapply fold_settle_fs_present; [apply Hall; eapply lookup_lt_Some; exact Hi | exact Hi | exact Hp | exact Ho].
Qed.

Lemma downloadPage_tolerates_resource_failures_witness :
  let w1 := fst (fs_mkdir_p (resources_dir_of "/tmp/out" "example-com.html")
                   (mkWorld (fs w_out) (reqs w_out ++ ["https://example.com"]))) in
  let resourcesDir := resources_dir_of "/tmp/out" "example-com.html" in
  let rs := scan_resources Whatwg.new_URL (cheerio_load partial_page) "https://example.com" in
  exists w',
    downloadPage Whatwg.new_URL partial_net "https://example.com" "/tmp/out" [0; 1] w_out
      = (w', inr (JsString (Path.join "/tmp/out" "example-com.html"))) /\
    reqs w' = reqs w_out ++ "https://example.com"
                :: issued_urls Whatwg.new_URL "https://example.com" resourcesDir rs /\
    (forall p, fs w' !! p = fs w1 !! p \/ p = Path.join "/tmp/out" "example-com.html" \/
       exists r a filename, In r rs /\
         task_pending Whatwg.new_URL "https://example.com" resourcesDir r = PIssued a filename p /\
         download_outcome Whatwg.new_URL partial_net (fs w1) "https://example.com" resourcesDir r
           = Some filename) /\
    (forall r a filename p, In r rs ->
       task_pending Whatwg.new_URL "https://example.com" resourcesDir r = PIssued a filename p ->
       download_outcome Whatwg.new_URL partial_net (fs w1) "https://example.com" resourcesDir r
         = Some filename ->
       exists c, fs w' !! p = Some (File true c)).
Proof.
  apply (downloadPage_tolerates_resource_failures Whatwg.new_URL partial_net "https://example.com"
           "/tmp/out" [0; 1] w_out 200 partial_page "example-com.html");
    vm_compute; reflexivity.
Defined.

(** *** C10 *)

(** C10: a successful run is the chain access, GET, [mkdir], processing,
    [writeFile]; the [mkdir] step leaves the resources directory in the
    world the processing of the page starts from, and it still exists at
    the end, whatever the number of resources; [fs.mkdir(p, {recursive:
    true})] on an existing directory succeeds and changes nothing. *)
Theorem downloadPage_creates_resources_dir new_URL net url outputDir order w w' v :
  downloadPage new_URL net url outputDir order w = (w', inr v) ->
  exists pageName b w1 w2 w3 w4 data processed,
    generateFileName new_URL url false = Some pageName /\
    fs_access outputDir w = (w1, inr tt) /\
    axios_get new_URL net default_validate url w1 = (w2, inr data) /\
    data = match net url with Http _ data => data | NetError _ _ => Doc [] end /\
    fs_mkdir_p (resources_dir_of outputDir pageName) w2 = (w3, inr tt) /\
    fs w3 !! resources_dir_of outputDir pageName = Some (Dir b) /\
    processHtmlWithProgress new_URL net data url (resources_dir_of outputDir pageName) order w3
      = (w4, inr processed) /\
    fs_writeFile (Path.join outputDir pageName) (Doc processed) w4 = (w', inr tt) /\
    fs w' !! resources_dir_of outputDir pageName = Some (Dir b) /\
    (forall p w0 b0, fs w0 !! p = Some (Dir b0) -> fs_mkdir_p p w0 = (w0, inr tt)).
Proof.
  intros H.
  apply downloadPage_success_inv in H
    as (pn & w1 & w2 & w3 & w4 & data & processed & H1 & Hget & G & H3 & H4 & H5 & _).
  set (rd := resources_dir_of outputDir pn) in *.
  destruct (mkdirp_go_dir _ _ _ _ _ H3) as (b & Hb).
  assert (Hdata : data = match net url with Http _ data => data | NetError _ _ => Doc [] end).
  { unfold axios_get, bind in Hget. destruct (axios_issue new_URL url w1) as [w1' [e|[]]];
      [discriminate|].
    unfold axios_settle, throw, ret in Hget.
    destruct (net url) as [s d|]; [|discriminate].
    destruct (default_validate s); [congruence|discriminate]. }
  assert (Hb4 : fs w4 !! rd = Some (Dir b)).
  { rewrite processHtml_run in H4. injection H4 as <- _. simpl.
    apply fold_settle_fs_dir; [reflexivity|exact Hb]. }
  exists pn, b, w1, w2, w3, w4, data, processed.
  do 8 (split; [assumption|]). split.
  - unfold fs_writeFile in H5.
    destruct (write_error (fs w4) (Path.join outputDir pn)) eqn:Ew; [discriminate|].
    assert (Hne : Path.join outputDir pn <> rd).
    { intros E. rewrite E in Ew. unfold write_error in Ew. rewrite Hb4 in Ew. discriminate. }
    injection H5 as <-. cbn [fs set_fs]. rewrite lookup_insert_ne by exact Hne. exact Hb4.
  - intros p w0 b0 Hp. unfold fs_mkdir_p.
    destruct (length (Path.split_slash p)); simpl; now rewrite Hp.
Qed.


Lemma downloadPage_creates_resources_dir_witness :
  downloadPage Whatwg.new_URL (status_net 200) "https://example.com/page" "/tmp/out" [] w_out
    = (fst (downloadPage Whatwg.new_URL (status_net 200) "https://example.com/page" "/tmp/out" [] w_out),
       inr (JsString "/tmp/out/example-com-page.html")) /\
  exists pageName b w1 w2 w3 w4 data processed,
    generateFileName Whatwg.new_URL "https://example.com/page" false = Some pageName /\
    fs_access "/tmp/out" w_out = (w1, inr tt) /\
    axios_get Whatwg.new_URL (status_net 200) default_validate "https://example.com/page" w1
      = (w2, inr data) /\
    data = match status_net 200 "https://example.com/page" with
           | Http _ data => data | NetError _ _ => Doc [] end /\
    fs_mkdir_p (resources_dir_of "/tmp/out" pageName) w2 = (w3, inr tt) /\
    fs w3 !! resources_dir_of "/tmp/out" pageName = Some (Dir b) /\
    processHtmlWithProgress Whatwg.new_URL (status_net 200) data "https://example.com/page"
      (resources_dir_of "/tmp/out" pageName) [] w3 = (w4, inr processed) /\
    fs_writeFile (Path.join "/tmp/out" pageName) (Doc processed) w4
      = (fst (downloadPage Whatwg.new_URL (status_net 200) "https://example.com/page" "/tmp/out" [] w_out),
         inr tt) /\
    fs (fst (downloadPage Whatwg.new_URL (status_net 200) "https://example.com/page" "/tmp/out" [] w_out))
      !! resources_dir_of "/tmp/out" pageName = Some (Dir b) /\
    (forall p w0 b0, fs w0 !! p = Some (Dir b0) -> fs_mkdir_p p w0 = (w0, inr tt)).
Proof.
  assert (E : downloadPage Whatwg.new_URL (status_net 200) "https://example.com/page" "/tmp/out" [] w_out
    = (fst (downloadPage Whatwg.new_URL (status_net 200) "https://example.com/page" "/tmp/out" [] w_out),
       inr (JsString "/tmp/out/example-com-page.html"))) by (vm_compute; reflexivity).
  split; [exact E|].
  exact (downloadPage_creates_resources_dir Whatwg.new_URL (status_net 200)
           "https://example.com/page" "/tmp/out" [] w_out _ _ E).
Defined.


(** *** C8 *)

(** C8 (counterexample): two references to /a.png get the same file, but
    each sends its own GET: the image is requested twice. *)
Lemma repeated_reference_downloaded_twice :
  let r := downloadPage Whatwg.new_URL dup_net "https://example.com" "/tmp/out" [0; 1] w_out in
  snd r = inr (JsString "/tmp/out/example-com.html") /\
  reqs (fst r) = ["https://example.com"; "https://example.com/a.png"; "https://example.com/a.png"] /\
  count_occ String.string_dec (reqs (fst r)) "https://example.com/a.png" = 2.
Proof. vm_compute. repeat split. Qed.

(** C8 (amended): two references that resolve to the same absolute URL
    get the same file name and file path; repeated references are not
    collapsed: the run sends, after the requests before it, one GET per
    reference whose URL resolves, in scan order. *)
Theorem same_absolute_url_same_file new_URL net html baseUrl resourcesDir order w
    u1 u2 a f1 p1 f2 p2
  (H1 : dr_prepare new_URL baseUrl u1 resourcesDir = Some (a, f1, p1))
  (H2 : dr_prepare new_URL baseUrl u2 resourcesDir = Some (a, f2, p2)) :
  f1 = f2 /\ p1 = p2 /\
  reqs (fst (processHtmlWithProgress new_URL net html baseUrl resourcesDir order w)) =
  reqs w ++ issued_urls new_URL baseUrl resourcesDir
              (scan_resources new_URL (cheerio_load html) baseUrl).
Proof.
  unfold dr_prepare in H1, H2.
  destruct (new_URL_with_base new_URL u1 baseUrl) as [x1|]; [|discriminate].
  destruct (new_URL_with_base new_URL u2 baseUrl) as [x2|]; [|discriminate].
  destruct (generateFileName new_URL (href x1) true) as [g1|] eqn:G1; [|discriminate].
  destruct (generateFileName new_URL (href x2) true) as [g2|] eqn:G2; [|discriminate].
  injection H1 as E1 <- <-. injection H2 as E2 <- <-.
  rewrite E1 in G1. rewrite E2 in G2. rewrite G1 in G2. injection G2 as <-.
  split; [reflexivity|]. split; [reflexivity|].
  rewrite processHtml_run. reflexivity.
Qed.

Lemma same_absolute_url_same_file_witness :
  "example-com-a.png.png" = "example-com-a.png.png" /\
  "/tmp/out/example-com_files/example-com-a.png.png" = "/tmp/out/example-com_files/example-com-a.png.png" /\
  reqs (fst (processHtmlWithProgress Whatwg.new_URL dup_net dup_page "https://example.com"
               "/tmp/out/example-com_files" [0; 1] (fst (fs_mkdir_p "/tmp/out/example-com_files" w_out)))) =
  reqs (fst (fs_mkdir_p "/tmp/out/example-com_files" w_out)) ++
    issued_urls Whatwg.new_URL "https://example.com" "/tmp/out/example-com_files"
      (scan_resources Whatwg.new_URL (cheerio_load dup_page) "https://example.com").
Proof.
  apply (same_absolute_url_same_file Whatwg.new_URL dup_net dup_page "https://example.com"
           "/tmp/out/example-com_files" [0; 1] (fst (fs_mkdir_p "/tmp/out/example-com_files" w_out))
           "/a.png" "https://example.com/a.png" "https://example.com/a.png");
    vm_compute; reflexivity.
Defined.

(* ------------------------------------------------------------------ *)
(** ** The second module and the command line *)

(** *** Strings: suffixes and the sanitizing chain *)

Lemma append_cons (x : ascii) (a b : string) : String x a +++ b = String x (a +++ b).
Proof. reflexivity. Qed.

Lemma append_nil_l (b : string) : "" +++ b = b.
Proof. reflexivity. Qed.

Lemma append_assoc_str (a b c : string) : (a +++ b) +++ c = a +++ (b +++ c).
Proof. induction a as [|x a IH]; [reflexivity|]. rewrite !append_cons. congruence. Qed.

Lemma append_empty_r (a : string) : a +++ "" = a.
Proof. induction a as [|x a IH]; [reflexivity|]. rewrite append_cons. congruence. Qed.

Lemma length_append_str (a b : string) : String.length (a +++ b) = String.length a + String.length b.
Proof. induction a as [|x a IH]; [reflexivity|]. rewrite append_cons. simpl. congruence. Qed.

Lemma substring_app_r (t s : string) k m :
  String.substring (String.length t + k) m (t +++ s) = String.substring k m s.
Proof. induction t as [|x t IH]; [reflexivity|]. rewrite append_cons. simpl. auto. Qed.

Lemma substring_0_all (s : string) : String.substring 0 (String.length s) s = s.
Proof. induction s as [|x s IH]; simpl; congruence. Qed.

Lemma substring_0_app (t s : string) : String.substring 0 (String.length t) (t +++ s) = t.
Proof.
  induction t as [|x t IH]; [destruct s; reflexivity|].
  rewrite append_cons. simpl. congruence.
Qed.

Lemma substring_split (s : string) k :
  k <= String.length s ->
  s = String.substring 0 k s +++ String.substring k (String.length s - k) s.
Proof.
  revert k. induction s as [|x s IH]; intros k Hk; simpl in *.
  - destruct k; [reflexivity|lia].
  - destruct k as [|k]; simpl.
    + rewrite append_nil_l, substring_0_all. reflexivity.
    + rewrite append_cons. f_equal. apply IH. lia.
Qed.

Lemma ends_with_spec (s suf : string) :
  ends_with s suf = true <-> exists t, s = t +++ suf.
Proof.
  unfold ends_with. split.
  - intros H. apply andb_prop in H as [Hle Heq].
    apply Nat.leb_le in Hle. apply String.eqb_eq in Heq.
    exists (String.substring 0 (String.length s - String.length suf) s).
    rewrite (substring_split s (String.length s - String.length suf)) at 1 by lia.
    f_equal. replace (String.length s - (String.length s - String.length suf))
      with (String.length suf) by lia. exact Heq.
  - intros [t ->]. rewrite length_append_str.
    replace (String.length t + String.length suf - String.length suf)
      with (String.length t + 0) by lia.
    rewrite substring_app_r.
    replace (String.length suf) with (String.length suf - 0) at 2 by lia.
    rewrite (Nat.sub_0_r (String.length suf)).
    pose proof (substring_0_all suf) as E. rewrite E.
    apply andb_true_intro. split; [apply Nat.leb_le; lia|apply String.eqb_refl].
Qed.

Lemma starts_with_hyphen (s : string) : starts_with s "-" = hd_is_hyphen s.
Proof.
  destruct s as [|x s]; [reflexivity|]. unfold starts_with. rewrite prefix_cons.
  destruct (Ascii.ascii_dec "-" x) as [<-|Hne].
  - destruct s; reflexivity.
  - cbn [hd_is_hyphen]. symmetry. apply Ascii.eqb_neq. congruence.
Qed.

Lemma forall_chars_app p (a b : string) :
  forall_chars p (a +++ b) = forall_chars p a && forall_chars p b.
Proof.
  induction a as [|x a IH]; [reflexivity|]. rewrite append_cons. simpl.
  rewrite IH. apply andb_assoc.
Qed.

Lemma no_double_hyphen_app_l (a b : string) :
  no_double_hyphen (a +++ b) = true -> no_double_hyphen a = true.
Proof.
  induction a as [|x a IH]; [reflexivity|]. rewrite append_cons. simpl.
  intros H. apply andb_prop in H as [H1 H2]. apply andb_true_intro. split; [|auto].
  destruct a as [|y a]; simpl; [destruct (Ascii.eqb x "-"); reflexivity|exact H1].
Qed.

Lemma no_double_hyphen_two (a : string) : no_double_hyphen (a +++ "--") = false.
Proof.
  induction a as [|x a IH]; [reflexivity|].
  rewrite append_cons.
  change (no_double_hyphen (String x (a +++ "--"))) with
    (negb (Ascii.eqb x "-" && hd_is_hyphen (a +++ "--")) && no_double_hyphen (a +++ "--")).
  rewrite IH. apply andb_false_r.
Qed.

Lemma replace_nonalnum_chars (s : string) :
  forall_chars alnum_or_hyphen (replace_nonalnum s) = true.
Proof.
  induction s as [|x s IH]; simpl; [reflexivity|]. rewrite IH, andb_true_r.
  unfold alnum_or_hyphen. destruct (is_alnum x) eqn:E; rewrite ?E; reflexivity.
Qed.

Lemma collapse_hyphens_chars b (s : string) :
  forall_chars alnum_or_hyphen s = true ->
  forall_chars alnum_or_hyphen (collapse_hyphens b s) = true.
Proof.
  revert b. induction s as [|x s IH]; intros b H; simpl in *; [reflexivity|].
  apply andb_prop in H as [Hx Hs].
  destruct (Ascii.eqb x "-") eqn:E; [destruct b|]; simpl; rewrite ?IH, ?Hx; auto.
Qed.

Lemma collapse_hyphens_head (s : string) : hd_is_hyphen (collapse_hyphens true s) = false.
Proof.
  induction s as [|x s IH]; simpl; [reflexivity|].
  destruct (Ascii.eqb x "-") eqn:E; [exact IH|exact E].
Qed.

Lemma collapse_hyphens_single b (s : string) : no_double_hyphen (collapse_hyphens b s) = true.
Proof.
  revert b. induction s as [|x s IH]; intros b; simpl; [reflexivity|].
  destruct (Ascii.eqb x "-") eqn:E; [destruct b; [apply IH|]|]; simpl.
  - rewrite collapse_hyphens_head, IH. reflexivity.
  - rewrite E, IH. reflexivity.
Qed.

Lemma trim_hyphen_sanitized (s : string) :
  forall_chars alnum_or_hyphen s = true -> no_double_hyphen s = true ->
  sanitized (trim_hyphen s) = true.
Proof.
  intros Hc Hd. unfold trim_hyphen.
  set (s1 := match s with
             | String x s' => if Ascii.eqb x "-" then s' else s
             | EmptyString => s
             end).
  assert (H1 : forall_chars alnum_or_hyphen s1 = true /\ no_double_hyphen s1 = true
               /\ hd_is_hyphen s1 = false).
  { subst s1. destruct s as [|x s']; [auto|]. simpl in Hc, Hd.
    apply andb_prop in Hc as [Hx Hc]. apply andb_prop in Hd as [Hx' Hd].
    destruct (Ascii.eqb x "-") eqn:E; simpl.
    - repeat split; auto. destruct (hd_is_hyphen s'); [discriminate|reflexivity].
    - cbn [forall_chars no_double_hyphen hd_is_hyphen]. rewrite Hx, Hc, E, Hd.
      repeat split; reflexivity. }
  destruct H1 as (Hc1 & Hd1 & Hh1).
  unfold sanitized. rewrite starts_with_hyphen.
  destruct (ends_with s1 "-") eqn:Ee.
  - apply ends_with_spec in Ee as [t Ht]. rewrite Ht.
    rewrite length_append_str. simpl String.length.
    replace (String.length t + 1 - 1) with (String.length t) by lia.
    rewrite substring_0_app.
    rewrite Ht, forall_chars_app in Hc1. apply andb_prop in Hc1 as [Hct _].
    rewrite Ht in Hd1. pose proof (no_double_hyphen_app_l _ _ Hd1) as Hdt.
    rewrite Hct, Hdt. simpl.
    assert (Hht : hd_is_hyphen t = false).
    { destruct t; [reflexivity|]. rewrite Ht in Hh1. exact Hh1. }
    rewrite Hht. simpl.
    destruct (ends_with t "-") eqn:Et; [|reflexivity].
    apply ends_with_spec in Et as [v ->].
    rewrite append_assoc_str in Hd1. simpl in Hd1. rewrite no_double_hyphen_two in Hd1.
    discriminate.
  - rewrite Hc1, Hd1, Hh1, Ee. reflexivity.
Qed.

Lemma sanitize_chain (s : string) :
  sanitized (trim_hyphen (collapse_hyphens false (replace_nonalnum s))) = true.
Proof.
  apply trim_hyphen_sanitized.
  - apply collapse_hyphens_chars, replace_nonalnum_chars.
  - apply collapse_hyphens_single.
Qed.

(** X1: a name of the second [generateFileName] is a sanitized core
    followed by [.html] for a page, or by the extension of the URL's path
    (possibly empty) for a resource. *)
Theorem generateFileName2_sanitized new_URL u isResource n :
  generateFileName2 new_URL u isResource = Some n ->
  exists url core,
    new_URL u None = Some url /\ sanitized core = true /\
    n = core +++ (if isResource then Path.extname (pathname url) else ".html").
Proof.
  unfold generateFileName2. destruct (new_URL u None) as [url|]; [|discriminate].
  intros H. exists url.
  match type of H with
  | context [trim_hyphen (collapse_hyphens false (replace_nonalnum ?x))] =>
      set (core := trim_hyphen (collapse_hyphens false (replace_nonalnum x))) in H
  end.
  exists core. split; [reflexivity|]. split; [apply sanitize_chain|].
  destruct isResource; injection H as <-; [|reflexivity].
  destruct (String.eqb (Path.extname (pathname url)) "") eqn:E; [|reflexivity].
  apply String.eqb_eq in E. rewrite E. symmetry. apply append_empty_r.
Qed.

Lemma generateFileName2_sanitized_witness :
  generateFileName2 Whatwg.new_URL "https://ru.hexlet.io/courses" false
    = Some "ru-hexlet-io-courses.html" /\
  exists url core,
    Whatwg.new_URL "https://ru.hexlet.io/courses" None = Some url /\ sanitized core = true /\
    "ru-hexlet-io-courses.html" = core +++ ".html".
Proof.
  split; [vm_compute; reflexivity|].
  exact (generateFileName2_sanitized Whatwg.new_URL "https://ru.hexlet.io/courses" false
           "ru-hexlet-io-courses.html" ltac:(vm_compute; reflexivity)).
Defined.

(** *** [path.join], [path.basename] and [path.dirname] on plain segments *)

Lemma split_go_app_slash (a b cur : string) :
  Path.split_slash_go cur (a +++ String "/" b)
  = Path.split_slash_go cur a ++ Path.split_slash_go "" b.
Proof.
  revert cur. induction a as [|x a IH]; intros cur; [reflexivity|].
  rewrite append_cons. simpl. destruct (Ascii.eqb x "/"); simpl; rewrite IH; reflexivity.
Qed.

Lemma split_go_no_slash (s cur : string) :
  no_slash s = true -> Path.split_slash_go cur s = [cur +++ s].
Proof.
  revert cur. induction s as [|x s IH]; intros cur H.
  - simpl. now rewrite append_empty_r.
  - unfold no_slash in H. simpl in H. apply andb_prop in H as [Hx Hs].
    simpl. destruct (Ascii.eqb x "/"); [discriminate|].
    rewrite IH by exact Hs. rewrite append_assoc_str. reflexivity.
Qed.

Lemma split_go_all_no_slash (s cur : string) :
  no_slash cur = true -> Forall (fun x => no_slash x = true) (Path.split_slash_go cur s).
Proof.
  revert cur. induction s as [|x s IH]; intros cur H; simpl; [now constructor|].
  destruct (Ascii.eqb x "/") eqn:E.
  - constructor; [exact H|]. apply IH. reflexivity.
  - apply IH. unfold no_slash in *. rewrite forall_chars_app, H. simpl. now rewrite E.
Qed.

Lemma concat_snoc (l : list string) (s : string) :
  String.concat "/" (l ++ [s])
  = match l with [] => s | _ => String.concat "/" l +++ "/" +++ s end.
Proof.
  induction l as [|x l IH]; [reflexivity|].
  destruct l as [|y l].
  - reflexivity.
  - change (String.concat "/" ((x :: y :: l) ++ [s]))
      with (x +++ "/" +++ String.concat "/" ((y :: l) ++ [s])).
    rewrite IH.
    change (String.concat "/" (x :: y :: l)) with (x +++ "/" +++ String.concat "/" (y :: l)).
    rewrite !append_assoc_str. reflexivity.
Qed.

Lemma split_concat (l : list string) :
  l <> [] -> Forall (fun x => no_slash x = true) l ->
  Path.split_slash (String.concat "/" l) = l.
Proof.
  induction l as [|x l IH]; intros Hne Hall; [congruence|].
  inversion Hall as [|? ? Hx Hl]; subst.
  destruct l as [|y l].
  - unfold Path.split_slash. simpl. rewrite split_go_no_slash by exact Hx. reflexivity.
  - change (String.concat "/" (x :: y :: l)) with (x +++ String "/" (String.concat "/" (y :: l))).
    unfold Path.split_slash. rewrite split_go_app_slash.
    rewrite split_go_no_slash by exact Hx.
    change (Path.split_slash_go "" (String.concat "/" (y :: l)))
      with (Path.split_slash (String.concat "/" (y :: l))).
    rewrite IH by (congruence || exact Hl). reflexivity.
Qed.

Lemma plain_segment_spec (s : string) :
  plain_segment s = true <->
  s <> "" /\ s <> "." /\ s <> ".." /\ no_slash s = true.
Proof.
  unfold plain_segment. rewrite !andb_true_iff, !negb_true_iff, !String.eqb_neq. tauto.
Qed.

Lemma norm_step_plain allow (stack : list string) (s : string) :
  plain_segment s = true -> Path.norm_step allow stack s = s :: stack.
Proof.
  intros H. apply plain_segment_spec in H as (H1 & H2 & H3 & _).
  unfold Path.norm_step.
  apply String.eqb_neq in H1, H2, H3. rewrite H1, H2, H3. reflexivity.
Qed.

Lemma norm_step_normal allow (stack : list string) (seg : string) :
  normal_stack allow stack -> no_slash seg = true ->
  normal_stack allow (Path.norm_step allow stack seg).
Proof.
  intros (xs & dd & -> & Hxs & Hdd & Hal) Hseg. unfold Path.norm_step.
  destruct (String.eqb seg "" || String.eqb seg ".") eqn:E1; [exists xs, dd; auto|].
  destruct (String.eqb seg "..") eqn:E2.
  - destruct xs as [|top xs].
    + destruct dd as [|top dd]; simpl.
      * destruct allow.
        -- exists [], [".."]. repeat split; try (intros; discriminate); repeat constructor.
        -- exists [], []. repeat split; auto.
      * inversion Hdd as [|? ? Htop Hdd']; subst. rewrite String.eqb_refl.
        destruct allow.
        -- exists [], (".." :: ".." :: dd). repeat split; try (intros; discriminate).
           ++ constructor.
           ++ repeat constructor. exact Hdd'.
        -- exists [], (".." :: dd). auto.
    + simpl. inversion Hxs as [|? ? Htop Hxs']; subst.
      apply plain_segment_spec in Htop as (_ & _ & Htop & _).
      apply String.eqb_neq in Htop. rewrite Htop. exists xs, dd. auto.
  - exists (seg :: xs), dd. repeat split; auto. constructor; [|exact Hxs].
    apply orb_false_iff in E1 as [E1 E1'].
    unfold plain_segment. rewrite E1, E1', E2, Hseg. reflexivity.
Qed.

Lemma fold_norm_normal allow (l stack : list string) :
  normal_stack allow stack -> Forall (fun x => no_slash x = true) l ->
  normal_stack allow (fold_left (Path.norm_step allow) l stack).
Proof.
  revert stack. induction l as [|x l IH]; intros stack Hs Hl; [exact Hs|].
  inversion Hl; subst. simpl. apply IH; [apply norm_step_normal|]; assumption.
Qed.

Lemma normal_stack_elems allow (stack : list string) :
  normal_stack allow stack -> Forall (fun x => x <> "" /\ no_slash x = true) stack.
Proof.
  intros (xs & dd & -> & Hxs & Hdd & _). apply Forall_app. split.
  - eapply Forall_impl; [exact Hxs|]. intros x Hx.
    apply plain_segment_spec in Hx. tauto.
  - eapply Forall_impl; [exact Hdd|]. intros x ->. split; [discriminate|reflexivity].
Qed.

Lemma fold_rev_normal allow (stack : list string) :
  normal_stack allow stack -> fold_left (Path.norm_step allow) (rev stack) [] = stack.
Proof.
  intros (xs & dd & -> & Hxs & Hdd & Hal).
  rewrite rev_app_distr, fold_left_app.
  assert (Hd : fold_left (Path.norm_step allow) (rev dd) [] = dd).
  { destruct allow; [|rewrite Hal by reflexivity; reflexivity].
    clear Hal Hxs. induction dd as [|d dd IH]; [reflexivity|].
    inversion Hdd as [|? ? -> Hdd']; subst. simpl. rewrite fold_left_app, IH by exact Hdd'.
    simpl. destruct dd as [|t dd]; [reflexivity|].
    inversion Hdd' as [|? ? -> _]. reflexivity. }
  rewrite Hd. clear Hd Hal. induction xs as [|x xs IH]; [reflexivity|].
  inversion Hxs as [|? ? Hx Hxs']; subst. simpl. rewrite fold_left_app, IH by exact Hxs'.
  simpl. now rewrite norm_step_plain.
Qed.

(** The stack of segments [path.normalize] keeps for a path, and its
    leading separator. *)
Lemma path_stack_normal (out : string) :
  normal_stack (negb (starts_with out "/"))
    (fold_left (Path.norm_step (negb (starts_with out "/"))) (Path.split_slash out) []).
Proof.
  apply fold_norm_normal.
  - exists [], []. repeat split; auto.
  - apply split_go_all_no_slash. reflexivity.
Qed.

Lemma ends_with_app_long (x s suf : string) :
  String.length suf <= String.length s -> ends_with (x +++ s) suf = ends_with s suf.
Proof.
  intros Hle. unfold ends_with. rewrite length_append_str.
  replace (String.length x + String.length s - String.length suf)
    with (String.length x + (String.length s - String.length suf)) by lia.
  rewrite substring_app_r.
  destruct (Nat.leb_spec (String.length suf) (String.length s)); [|lia].
  destruct (Nat.leb_spec (String.length suf) (String.length x + String.length s)); [|lia].
  reflexivity.
Qed.

Lemma no_slash_not_ends_slash (s : string) :
  no_slash s = true -> ends_with s "/" = false.
Proof.
  intros H. destruct (ends_with s "/") eqn:E; [|reflexivity].
  apply ends_with_spec in E as [t ->]. unfold no_slash in H.
  rewrite forall_chars_app in H. apply andb_prop in H as [_ H]. discriminate.
Qed.

Lemma no_slash_not_starts_slash (s : string) :
  s <> "" -> no_slash s = true -> starts_with s "/" = false.
Proof.
  destruct s as [|c s]; [congruence|]. intros _ H. unfold no_slash in H. simpl in H.
  apply andb_prop in H as [Hc _]. unfold starts_with. rewrite prefix_cons.
  destruct (Ascii.ascii_dec "/" c) as [<-|]; [discriminate|reflexivity].
Qed.

Lemma starts_with_app (a b : string) :
  a <> "" -> starts_with (a +++ b) "/" = starts_with a "/".
Proof.
  destruct a as [|c a]; [congruence|]. intros _. unfold starts_with.
  rewrite append_cons, !prefix_cons. destruct (Ascii.ascii_dec "/" c); [|reflexivity].
  destruct (a +++ b), a; reflexivity.
Qed.

Lemma concat_nonempty (l : list string) (x : string) :
  x <> "" -> String.concat "/" (x :: l) <> "".
Proof.
  intros Hx. destruct l as [|y l]; [exact Hx|].
  change (String.concat "/" (x :: y :: l)) with (x +++ "/" +++ String.concat "/" (y :: l)).
  destruct x; [congruence|]. discriminate.
Qed.

Lemma concat_starts_slash (l : list string) (x : string) :
  x <> "" -> no_slash x = true -> starts_with (String.concat "/" (x :: l)) "/" = false.
Proof.
  intros Hx Hs. destruct l as [|y l]; [now apply no_slash_not_starts_slash|].
  change (String.concat "/" (x :: y :: l)) with (x +++ "/" +++ String.concat "/" (y :: l)).
  rewrite starts_with_app by exact Hx. now apply no_slash_not_starts_slash.
Qed.

Lemma join_plain (out s : string) :
  plain_segment s = true ->
  Path.join out s =
  (if starts_with out "/" then "/" else "") +++
  String.concat "/" (rev (fold_left (Path.norm_step (negb (starts_with out "/")))
                              (Path.split_slash out) []) ++ [s]).
Proof.
  intros Hp. pose proof Hp as (Hne & _ & _ & Hns)%plain_segment_spec.
  unfold Path.join.
  destruct (String.eqb out "") eqn:Eo.
  - apply String.eqb_eq in Eo. subst out.
    apply String.eqb_neq in Hne as Hne'. rewrite Hne'.
    unfold Path.normalize. rewrite Hne'.
    rewrite (no_slash_not_starts_slash s) by assumption.
    rewrite (no_slash_not_ends_slash s) by assumption.
    unfold Path.normalize_string, Path.split_slash.
    rewrite split_go_no_slash by exact Hns. simpl fold_left.
    rewrite norm_step_plain by exact Hp. simpl. rewrite ?append_nil_l, Hne'. reflexivity.
  - apply String.eqb_neq in Eo. apply String.eqb_neq in Hne as Hne'. rewrite Hne'.
    set (j := out +++ "/" +++ s).
    assert (Hj : String.eqb j "" = false).
    { apply String.eqb_neq. subst j. destruct out; [congruence|]. discriminate. }
    rewrite Hj. unfold Path.normalize. rewrite Hj.
    assert (Habs : starts_with j "/" = starts_with out "/") by (apply starts_with_app; exact Eo).
    assert (Htr : ends_with j "/" = false).
    { subst j. rewrite ends_with_app_long.
      - change ("/" +++ s) with (String "/" s).
        destruct s as [|c s']; [congruence|].
        change (String "/" (String c s')) with ("/" +++ String c s').
        rewrite ends_with_app_long by (simpl; lia). now apply no_slash_not_ends_slash.
      - simpl. lia. }
    rewrite Habs, Htr.
    assert (Hn : Path.normalize_string j (negb (starts_with out "/")) =
      String.concat "/" (rev (fold_left (Path.norm_step (negb (starts_with out "/")))
                                (Path.split_slash out) []) ++ [s])).
    { unfold Path.normalize_string, Path.split_slash. subst j.
      change ("/" +++ s) with (String "/" s). rewrite split_go_app_slash.
      rewrite (split_go_no_slash s "") by exact Hns. rewrite fold_left_app. simpl fold_left.
      rewrite norm_step_plain by exact Hp. reflexivity. }
    rewrite Hn.
    assert (Hc : String.eqb (String.concat "/" (rev (fold_left (Path.norm_step (negb (starts_with out "/")))
                    (Path.split_slash out) []) ++ [s])) "" = false).
    { apply String.eqb_neq. rewrite concat_snoc.
      destruct (rev _); [exact Hne|]. destruct (String.concat "/" (s0 :: l)); discriminate. }
    rewrite Hc. destruct (starts_with out "/"); reflexivity.
Qed.

Lemma last_nonempty_snoc (l : list string) (s acc : string) :
  s <> "" -> Path.last_nonempty (l ++ [s]) acc = s.
Proof.
  revert acc. induction l as [|x l IH]; intros acc Hs; cbn [app Path.last_nonempty];
    [|apply IH, Hs].
  apply String.eqb_neq in Hs. now rewrite Hs.
Qed.

Lemma filter_nonempty_id (l : list string) :
  Forall (fun x => x <> "") l -> filter (fun s => negb (String.eqb s "")) l = l.
Proof.
  induction l as [|x l IH]; intros H; [reflexivity|].
  inversion H as [|? ? Hx Hl]; subst. rewrite filter_cons_True.
  - f_equal. now apply IH.
  - apply String.eqb_neq in Hx. rewrite Hx. exact I.
Qed.

Lemma split_prefixed (abs : bool) (l : list string) :
  l <> [] -> Forall (fun x => no_slash x = true) l ->
  Path.split_slash ((if abs then "/" else "") +++ String.concat "/" l)
  = (if abs then [""] else []) ++ l.
Proof.
  intros Hne Hall. destruct abs.
  - change ("/" +++ String.concat "/" l) with ("" +++ String "/" (String.concat "/" l)).
    unfold Path.split_slash. rewrite split_go_app_slash.
    change (Path.split_slash_go "" (String.concat "/" l))
      with (Path.split_slash (String.concat "/" l)).
    rewrite split_concat by assumption. reflexivity.
  - apply split_concat; assumption.
Qed.

Lemma starts_prefixed (abs : bool) (x : string) (l : list string) :
  x <> "" -> no_slash x = true ->
  starts_with ((if abs then "/" else "") +++ String.concat "/" (x :: l)) "/" = abs.
Proof.
  intros Hx Hs. destruct abs.
  - unfold starts_with. change ("/" +++ String.concat "/" (x :: l))
      with (String "/" (String.concat "/" (x :: l))).
    rewrite prefix_cons. destruct (Ascii.ascii_dec "/" "/") as [_|]; [|congruence].
    destruct (String.concat "/" (x :: l)); reflexivity.
  - now apply concat_starts_slash.
Qed.

Section JoinPlain.

Variable out : string.

Let abs := starts_with out "/".
Let stack := fold_left (Path.norm_step (negb abs)) (Path.split_slash out) [].

Lemma stack_elems : Forall (fun x => x <> "" /\ no_slash x = true) (rev stack).
Proof. apply Forall_rev, (normal_stack_elems (negb abs)), path_stack_normal. Qed.

Lemma split_join_plain (s : string) :
  plain_segment s = true ->
  Path.split_slash (Path.join out s) = (if abs then [""] else []) ++ rev stack ++ [s].
Proof.
  intros Hp. pose proof Hp as (Hne & _ & _ & Hns)%plain_segment_spec.
  rewrite join_plain by exact Hp. fold abs stack.
  apply split_prefixed.
  - destruct (rev stack); discriminate.
  - apply Forall_app. split; [|constructor; auto].
    eapply Forall_impl; [exact stack_elems|]. intros ? [? ?]; assumption.
Qed.

Lemma basename_join_plain (s : string) :
  plain_segment s = true -> Path.basename (Path.join out s) = s.
Proof.
  intros Hp. pose proof Hp as (Hne & _ & _ & _)%plain_segment_spec.
  unfold Path.basename. rewrite split_join_plain by exact Hp.
  rewrite !app_assoc. now apply last_nonempty_snoc.
Qed.

Lemma starts_join_plain (s : string) :
  plain_segment s = true -> starts_with (Path.join out s) "/" = abs.
Proof.
  intros Hp. pose proof Hp as (Hne & _ & _ & Hns)%plain_segment_spec.
  rewrite join_plain by exact Hp. fold abs stack.
  pose proof stack_elems as He.
  destruct (rev stack) as [|t T] eqn:ET.
  - exact (starts_prefixed abs s [] Hne Hns).
  - inversion He as [|? ? [Ht Hts] _]; subst. exact (starts_prefixed abs t (T ++ [s]) Ht Hts).
Qed.

Lemma dirname_join_plain (s : string) :
  plain_segment s = true ->
  Path.dirname (Path.join out s) =
  match rev stack with
  | [] => if abs then "/" else "."
  | T => (if abs then "/" else "") +++ String.concat "/" T
  end.
Proof.
  intros Hp. pose proof Hp as (Hne & _ & _ & Hns)%plain_segment_spec.
  unfold Path.dirname. rewrite starts_join_plain, split_join_plain by exact Hp.
  rewrite filter_app.
  rewrite (filter_nonempty_id (rev stack ++ [s])).
  2:{ apply Forall_app. split; [|constructor; auto].
      eapply Forall_impl; [exact stack_elems|]. intros ? [? ?]; assumption. }
  replace (filter (fun s0 => negb (String.eqb s0 "")) (if abs then [""] else [])) with (@nil string)
    by (destruct abs; reflexivity).
  simpl app.
  destruct (rev stack) as [|t T] eqn:ET; [reflexivity|].
  change ((t :: T) ++ [s]) with (t :: (T ++ [s])).
  cbv beta iota. rewrite app_comm_cons, removelast_last. reflexivity.
Qed.

Lemma join_dirname_join (s s2 : string) :
  plain_segment s = true -> plain_segment s2 = true ->
  Path.join (Path.dirname (Path.join out s)) s2 = Path.join out s2.
Proof.
  intros Hp Hp2. rewrite dirname_join_plain by exact Hp.
  rewrite (join_plain out s2) by exact Hp2. fold abs stack.
  pose proof stack_elems as He.
  destruct (rev stack) as [|t T] eqn:ET.
  - destruct abs; rewrite join_plain by exact Hp2; reflexivity.
  - inversion He as [|? ? [Ht Hts] HT]; subst.
    rewrite join_plain by exact Hp2.
    rewrite starts_prefixed by assumption.
    rewrite split_prefixed.
    2:{ discriminate. }
    2:{ constructor; [exact Hts|]. eapply Forall_impl; [exact HT|]. intros ? [? ?]; assumption. }
    assert (Hfold : forall l, fold_left (Path.norm_step (negb abs))
                      ((if abs then [""] else []) ++ l) [] =
                    fold_left (Path.norm_step (negb abs)) l []).
    { intros l. destruct abs; reflexivity. }
    rewrite Hfold, <- ET, fold_rev_normal by apply path_stack_normal.
    rewrite ET. reflexivity.
Qed.

End JoinPlain.

(** *** Runs that keep a relation between worlds *)

Section Preserve.

Variable R : World -> World -> Prop.
Hypothesis R_refl : forall w, R w w.
Hypothesis R_trans : forall w1 w2 w3, R w1 w2 -> R w2 w3 -> R w1 w3.

Lemma bind_pres {A B} (m : M A) (k : A -> M B) :
  (forall w w' r, m w = (w', r) -> R w w') ->
  (forall a w w' r, k a w = (w', r) -> R w w') ->
  forall w w' r, bind m k w = (w', r) -> R w w'.
Proof.
  intros Hm Hk w w' r. unfold bind. destruct (m w) as [w1 [e|a]] eqn:E.
  - intros H. injection H as <- _. eapply Hm. exact E.
  - intros H. eapply R_trans; [eapply Hm; exact E|eapply Hk; exact H].
Qed.

Lemma catch_pres {A} (m : M A) (h : jserror -> M A) :
  (forall w w' r, m w = (w', r) -> R w w') ->
  (forall e w w' r, h e w = (w', r) -> R w w') ->
  forall w w' r, catch m h w = (w', r) -> R w w'.
Proof.
  intros Hm Hh w w' r. unfold catch. destruct (m w) as [w1 [e|a]] eqn:E.
  - intros H. eapply R_trans; [eapply Hm; exact E|eapply Hh; exact H].
  - intros H. injection H as <- _. eapply Hm. exact E.
Qed.

Lemma ret_pres {A} (a : A) w w' r : ret a w = (w', r) -> R w w'.
Proof. unfold ret. intros H. injection H as <- _. apply R_refl. Qed.

Lemma throw_pres {A} (e : jserror) w w' (r : jserror + A) : throw e w = (w', r) -> R w w'.
Proof. unfold throw. intros H. injection H as <- _. apply R_refl. Qed.

Lemma mapM_pres {A B} (f : A -> M B) (l : list A) :
  (forall x w w' r, f x w = (w', r) -> R w w') ->
  forall w w' r, mapM f l w = (w', r) -> R w w'.
Proof.
  intros Hf. induction l as [|x l IH]; simpl.
  - apply ret_pres.
  - apply bind_pres; [apply Hf|]. intros ys. apply bind_pres; [apply IH|]. intros. eapply ret_pres; eauto.
Qed.

Lemma foldM_pres {A B} (f : B -> A -> M B) (l : list A) :
  (forall b x w w' r, f b x w = (w', r) -> R w w') ->
  forall b w w' r, foldM f l b w = (w', r) -> R w w'.
Proof.
  intros Hf. induction l as [|x l IH]; intros b; simpl.
  - apply ret_pres.
  - apply bind_pres; [apply Hf|]. intros b'. apply IH.
Qed.

Hypothesis R_fs : forall w w', fs w' = fs w -> R w w'.
Hypothesis R_write : forall p c w w' r, fs_writeFile p c w = (w', r) -> R w w'.

Lemma axios_issue_pres new_URL u w w' r : axios_issue new_URL u w = (w', r) -> R w w'.
Proof.
  unfold axios_issue. destruct (new_URL u None); intros H; injection H as <- _;
    apply R_fs; reflexivity.
Qed.

Lemma axios_settle_pres net v u w w' r : axios_settle net v u w = (w', r) -> R w w'.
Proof.
  unfold axios_settle. destruct (net u) as [s d|c m].
  - destruct (v s); [apply ret_pres|apply throw_pres].
  - apply throw_pres.
Qed.

Lemma dr2_complete_pres new_URL net rd p w w' r :
  dr2_complete new_URL net rd p w = (w', r) -> R w w'.
Proof.
  revert w w' r. destruct p as [| |a]; simpl; try apply ret_pres.
  apply catch_pres; [|intros; eapply ret_pres; eauto].
  apply bind_pres; [apply axios_settle_pres|]. intros data.
  apply bind_pres.
  - unfold generateFileName2_m. destruct (generateFileName2 new_URL a true);
      [apply ret_pres|apply throw_pres].
  - intros fn. apply catch_pres; [|intros; eapply ret_pres; eauto].
    apply bind_pres; [apply R_write|]. intros. eapply ret_pres; eauto.
Qed.

Lemma task2_issue_pres new_URL b u w w' r : task2_issue new_URL b u w = (w', r) -> R w w'.
Proof.
  unfold task2_issue. destruct (new_URL_with_base new_URL u b); [|apply ret_pres].
  apply catch_pres; [|intros; eapply ret_pres; eauto].
  apply bind_pres; [apply axios_issue_pres|]. intros. eapply ret_pres; eauto.
Qed.

Lemma task2_settle_pres new_URL net rd rs ps dom i w w' r :
  task2_settle new_URL net rd rs ps dom i w = (w', r) -> R w w'.
Proof.
  unfold task2_settle. destruct (rs !! i) as [[|idx u a]|], (ps !! i); try apply ret_pres.
  apply bind_pres; [apply dr2_complete_pres|]. intros [f|]; [|apply ret_pres].
  destruct (String.eqb f ""); apply ret_pres.
Qed.

Lemma processHtml2_pres new_URL net html b rd order w w' r :
  processHtml2 new_URL net html b rd order w = (w', r) -> R w w'.
Proof.
  unfold processHtml2. revert w w' r.
  apply bind_pres; [apply mapM_pres; intros; eapply task2_issue_pres; eauto|]. intros ps.
  destruct (existsb is_rejected ps).
  - apply bind_pres; [apply foldM_pres; intros; eapply task2_settle_pres; eauto|].
    intros. eapply ret_pres; eauto.
  - apply foldM_pres. intros. eapply task2_settle_pres; eauto.
Qed.

End Preserve.

Lemma keeps_dirs_refl w : keeps_dirs w w.
Proof. intros q b H. exact H. Qed.

Lemma keeps_dirs_trans w1 w2 w3 : keeps_dirs w1 w2 -> keeps_dirs w2 w3 -> keeps_dirs w1 w3.
Proof. intros H1 H2 q b H. auto. Qed.

Lemma keeps_dirs_fs w w' : fs w' = fs w -> keeps_dirs w w'.
Proof. intros E q b H. now rewrite E. Qed.

Lemma keeps_dirs_write p c w w' r : fs_writeFile p c w = (w', r) -> keeps_dirs w w'.
Proof.
  unfold fs_writeFile. intros H q b Hq.
  destruct (write_error (fs w) p) eqn:Ew; injection H as <- _; [exact Hq|].
  cbn [fs set_fs]. rewrite lookup_insert_ne; [exact Hq|].
  intros <-. unfold write_error in Ew. rewrite Hq in Ew. discriminate.
Qed.

Lemma keeps_files_refl w : keeps_files w w.
Proof. intros q c H. eauto. Qed.

Lemma keeps_files_trans w1 w2 w3 : keeps_files w1 w2 -> keeps_files w2 w3 -> keeps_files w1 w3.
Proof. intros H1 H2 q c H. destruct (H1 q c H) as [c' H']. eauto. Qed.

Lemma keeps_files_fs w w' : fs w' = fs w -> keeps_files w w'.
Proof. intros E q c H. rewrite E. eauto. Qed.

Lemma keeps_files_write p c w w' r : fs_writeFile p c w = (w', r) -> keeps_files w w'.
Proof.
  unfold fs_writeFile. intros H q c' Hq.
  destruct (write_error (fs w) p) eqn:Ew; injection H as <- _; [eauto|].
  cbn [fs set_fs]. destruct (decide (p = q)) as [->|Hne].
  - rewrite lookup_insert_eq. eauto.
  - rewrite lookup_insert_ne by exact Hne. eauto.
Qed.

Lemma processHtml2_keeps_dirs new_URL net html b rd order w w' r :
  processHtml2 new_URL net html b rd order w = (w', r) -> keeps_dirs w w'.
Proof.
  apply processHtml2_pres.
  - apply keeps_dirs_refl.
  - apply keeps_dirs_trans.
  - apply keeps_dirs_fs.
  - apply keeps_dirs_write.
Qed.

Lemma processHtml2_keeps_files new_URL net html b rd order w w' r :
  processHtml2 new_URL net html b rd order w = (w', r) -> keeps_files w w'.
Proof.
  apply processHtml2_pres.
  - apply keeps_files_refl.
  - apply keeps_files_trans.
  - apply keeps_files_fs.
  - apply keeps_files_write.
Qed.

(** *** The second [downloadPage] on success *)

Lemma downloadPage2_success_inv new_URL net url outputDir order w w' p :
  downloadPage2 new_URL net url outputDir order w = (w', inr p) ->
  exists name w1 w2 w3 w4 data processed,
    let pageName := replace_first name ".html" "" in
    fs_access outputDir w = (w1, inr tt) /\
    axios_get new_URL net (fun status => status =? 200) url w1 = (w2, inr data) /\
    generateFileName2 new_URL url false = Some name /\
    fs_mkdir_p (Path.join outputDir (pageName +++ "_files")) w2 = (w3, inr tt) /\
    processHtml2 new_URL net data url (Path.join outputDir (pageName +++ "_files")) order w3
      = (w4, inr processed) /\
    fs_writeFile (Path.join outputDir (pageName +++ ".html")) (Doc processed) w4 = (w', inr tt) /\
    p = Path.join outputDir (pageName +++ ".html").
Proof.
  unfold downloadPage2. intros H. apply catch_rethrow_inr in H.
  apply bind_inr in H as (w1 & [] & H1 & H).
  apply bind_inr in H as (w2 & data & H2 & H).
  apply bind_inr in H as (w2' & name & Hg & H).
  unfold generateFileName2_m in Hg.
  destruct (generateFileName2 new_URL url false) as [n|] eqn:G; [|discriminate].
  injection Hg as <- <-.
  apply bind_inr in H as (w3 & [] & H3 & H).
  apply bind_inr in H as (w4 & processed & H4 & H).
  apply bind_inr in H as (w5 & [] & H5 & H).
  injection H as <- <-.
  exists n, w1, w2, w3, w4, data, processed. cbv zeta. tauto.
Qed.

Lemma forall_chars_impl (p q : ascii -> bool) (s : string) :
  (forall c, p c = true -> q c = true) -> forall_chars p s = true -> forall_chars q s = true.
Proof.
  intros Hpq. induction s as [|x s IH]; simpl; [auto|].
  intros H. apply andb_prop in H as [Hx Hs]. rewrite Hpq, IH; auto.
Qed.

Lemma alnum_or_hyphen_no_slash (s : string) :
  forall_chars alnum_or_hyphen s = true -> no_slash s = true.
Proof.
  apply forall_chars_impl. intros c Hc.
  destruct (Ascii.eqb_spec c "/") as [->|]; [discriminate|reflexivity].
Qed.

Lemma no_slash_app (a b : string) : no_slash (a +++ b) = no_slash a && no_slash b.
Proof. apply forall_chars_app. Qed.

(** [name.replace('.html', r)] finds the suffix when nothing before it can
    start a match. *)
Lemma replace_first_suffix (core r : string) :
  forall_chars alnum_or_hyphen core = true ->
  replace_first (core +++ ".html") ".html" r = core +++ r.
Proof.
  induction core as [|x core IH]; intros H.
  - simpl. rewrite append_empty_r. reflexivity.
  - simpl in H. apply andb_prop in H as [Hx Hc].
    rewrite !append_cons. cbn [replace_first]. rewrite prefix_cons.
    destruct (Ascii.ascii_dec "." x) as [<-|_]; [discriminate|].
    rewrite IH by exact Hc. reflexivity.
Qed.

Lemma plain_segment_suffix (core suf : string) :
  forall_chars alnum_or_hyphen core = true ->
  no_slash suf = true -> 2 < String.length suf ->
  plain_segment (core +++ suf) = true.
Proof.
  intros Hc Hs Hl. apply plain_segment_spec.
  assert (Hlen : 2 < String.length (core +++ suf)) by (rewrite length_append_str; lia).
  repeat split.
  - intros E. rewrite E in Hlen. simpl in Hlen. lia.
  - intros E. rewrite E in Hlen. simpl in Hlen. lia.
  - intros E. rewrite E in Hlen. simpl in Hlen. lia.
  - rewrite no_slash_app, alnum_or_hyphen_no_slash by exact Hc. exact Hs.
Qed.

Lemma sanitized_chars (s : string) : sanitized s = true -> forall_chars alnum_or_hyphen s = true.
Proof. unfold sanitized. intros H. now repeat apply andb_prop in H as [H _]. Qed.

(** The page of a successful run, its name and its resources directory. *)
Lemma downloadPage2_success_files new_URL net url outputDir order w w' p :
  downloadPage2 new_URL net url outputDir order w = (w', inr p) ->
  exists core,
    generateFileName2 new_URL url false = Some (core +++ ".html") /\ sanitized core = true /\
    p = Path.join outputDir (core +++ ".html") /\
    (exists d, fs w' !! p = Some (File true (Doc d))) /\
    (exists b, fs w' !! Path.join outputDir (core +++ "_files") = Some (Dir b)).
Proof.
  intros H. apply downloadPage2_success_inv in H
    as (name & w1 & w2 & w3 & w4 & data & processed & H1 & H2 & G & H3 & H4 & H5 & ->).
  pose proof G as (url' & core & Hu & Hs & Hn)%generateFileName2_sanitized.
  cbv iota in Hn. subst name.
  pose proof (sanitized_chars core Hs) as Hc.
  rewrite !replace_first_suffix, append_empty_r in * by exact Hc.
  exists core. split; [exact G|]. split; [exact Hs|]. split; [reflexivity|]. split.
  - unfold fs_writeFile in H5.
    destruct (write_error (fs w4) _); [discriminate|].
    injection H5 as <-. cbn [fs set_fs]. rewrite lookup_insert_eq. eauto.
  - destruct (mkdirp_go_dir _ _ _ _ _ H3) as [b Hb]. exists b.
    eapply keeps_dirs_write; [exact H5|].
    eapply processHtml2_keeps_dirs; [exact H4|]. exact Hb.
Qed.

(** The directory the second handler of the command line reports. *)
Lemma cli_resources_dir_join (outputDir core : string) :
  forall_chars alnum_or_hyphen core = true ->
  cli_resources_dir (Path.join outputDir (core +++ ".html"))
  = Path.join outputDir (core +++ "_files").
Proof.
  intros Hc. unfold cli_resources_dir.
  assert (P1 : plain_segment (core +++ ".html") = true)
    by (apply plain_segment_suffix; [exact Hc|reflexivity|simpl; lia]).
  assert (P2 : plain_segment (core +++ "_files") = true)
    by (apply plain_segment_suffix; [exact Hc|reflexivity|simpl; lia]).
  rewrite basename_join_plain by exact P1.
  rewrite replace_first_suffix by exact Hc.
  apply join_dirname_join; assumption.
Qed.

(** [match c with "ENOTFOUND" => x | _ => y end] as a string comparison. *)
Lemma match_ENOTFOUND {A} (c : string) (x y : A) :
  match c with "ENOTFOUND" => x | _ => y end = if String.eqb c "ENOTFOUND" then x else y.
Proof.
  do 9 (destruct c as [|a c]; [reflexivity|];
        destruct a as [[] [] [] [] [] [] [] []]; try reflexivity).
  destruct c; reflexivity.
Qed.

Lemma code_or_default_nonempty (code : option string) : code_or_default code <> "".
Proof.
  unfold code_or_default. destruct code as [c|]; [|discriminate].
  destruct (String.eqb_spec c "") as [_|Hne]; [discriminate|exact Hne].
Qed.

(** What the [.catch] of the second [downloadPage] rejects with. *)
Lemma downloadPage2_error_shape (url outputDir : string) (error : jserror) :
  let e := downloadPage2_error url outputDir error in
  e_name e = "Error" /\ e_status e = None /\
  (exists c, e_code e = Some c /\ c <> "") /\
  ((e_code e = Some "ENOTFOUND" /\
    e_message e = "Network error: could not resolve host for " +++ url) \/
   exists m, e_message e = "Failed to download " +++ url +++ ": " +++ m).
Proof.
  cbv zeta. unfold downloadPage2_error, PageLoaderError2. cbn [e_name e_status e_code e_message].
  split; [reflexivity|]. split; [reflexivity|].
  split; [eexists; split; [reflexivity|apply code_or_default_nonempty]|].
  destruct (e_code error) as [c|] eqn:Ec; [|right; eexists; reflexivity].
  rewrite match_ENOTFOUND.
  destruct (String.eqb_spec c "ENOTFOUND") as [->|_]; [|right; eexists; reflexivity].
  left. split; [reflexivity|]. unfold classify_message. rewrite Ec. reflexivity.
Qed.

Lemma downloadPage2_rejects_inv new_URL net url outputDir order w w' e :
  downloadPage2 new_URL net url outputDir order w = (w', inl e) ->
  exists e0, e = downloadPage2_error url outputDir e0.
Proof.
  unfold downloadPage2, catch, throw.
  match goal with |- context [match ?m w with _ => _ end] => destruct (m w) as [w1 [e0|v]] end.
  - intros H. injection H as _ <-. eauto.
  - discriminate.
Qed.

(** X3: when the output directory is writable and the page answers with
    any status but 200 (a 201 or a 204 as well as a 404), the second
    [downloadPage] rejects after that single request, with nothing
    written and the message "Failed to download <url>: Request failed with
    status N"; its code is a non-empty string, ERR_BAD_REQUEST for a 4xx
    and ERR_BAD_RESPONSE for a 5xx status (the code for other statuses
    depends on the axios release and is left open). *)
Theorem downloadPage2_rejects_non_200 new_URL net url outputDir order w s d
  (Hdir : match fs w !! outputDir with Some n => node_writable n | None => false end = true)
  (Hurl : match new_URL url None with Some _ => true | None => false end = true)
  (Hnet : net url = Http s d)
  (Hs : (s =? 200) = false) :
  exists code,
    downloadPage2 new_URL net url outputDir order w =
    (mkWorld (fs w) (reqs w ++ [url]),
     inl (PageLoaderError2 ("Failed to download " +++ url +++ ": Request failed with status "
                            +++ nat_to_string s) code)) /\
    code <> "" /\
    (s / 100 = 4 -> code = "ERR_BAD_REQUEST") /\
    (s / 100 = 5 -> code = "ERR_BAD_RESPONSE").
Proof.
  exists (code_or_default (axios_status_code s)). split.
  - unfold downloadPage2, catch, bind at 1.
    rewrite (fs_access_ok _ _ Hdir). unfold bind at 1. unfold axios_get, bind at 1, axios_issue.
    destruct (new_URL url None); [|discriminate].
    unfold axios_settle. rewrite Hnet, Hs. unfold throw, downloadPage2_error.
    rewrite classify_status_error. cbn [e_code].
    unfold axios_status_code.
    destruct (s / 100 =? 4); [reflexivity|]. destruct (s / 100 =? 5); reflexivity.
  - unfold axios_status_code.
    destruct (s / 100 =? 4) eqn:E4; [|destruct (s / 100 =? 5) eqn:E5].
    + split; [discriminate|]. split; [reflexivity|].
      apply Nat.eqb_eq in E4. lia.
    + split; [discriminate|]. apply Nat.eqb_eq in E5. split; [lia|reflexivity].
    + apply Nat.eqb_neq in E4, E5. split; [discriminate|]. split; intros; lia.
Qed.


(** X5: when [fs.access] fails on the output directory (read-only,
    missing, or below a regular file), the second [downloadPage] rejects
    before any request, with the world unchanged, code EACCES, ENOENT or
    ENOTDIR, and the message prefixed with ["Failed to download <url>: "]:
    "Output directory is not writable: <dir>" for EACCES, Node's message
    for the others. *)
Theorem downloadPage2_checks_dir_first new_URL net url outputDir order w code
  (Hdir : access_error (fs w) outputDir = Some code) :
  (code = "EACCES" /\
   downloadPage2 new_URL net url outputDir order w =
   (w, inl (PageLoaderError2 ("Failed to download " +++ url +++
              ": Output directory is not writable: " +++ outputDir) "EACCES"))) \/
  (code = "ENOENT" /\
   downloadPage2 new_URL net url outputDir order w =
   (w, inl (PageLoaderError2 ("Failed to download " +++ url +++
              ": ENOENT: no such file or directory, access '" +++ outputDir +++ "'") "ENOENT"))) \/
  (code = "ENOTDIR" /\
   downloadPage2 new_URL net url outputDir order w =
   (w, inl (PageLoaderError2 ("Failed to download " +++ url +++
              ": ENOTDIR: not a directory, access '" +++ outputDir +++ "'") "ENOTDIR"))).
Proof.
  assert (E : downloadPage2 new_URL net url outputDir order w =
    (w, inl (downloadPage2_error url outputDir (fs_error code "access" outputDir)))).
  { unfold downloadPage2, catch, bind at 1, fs_access at 1, throw. now rewrite Hdir. }
  rewrite E.
  destruct (access_error_code _ _ _ Hdir) as [-> | [-> | ->]];
    [left | right; left | right; right]; split; reflexivity.
Qed.

(** *** The elements the second [processHtml] rewrites *)

Lemma attr_update_twice (l : list (string * string)) (a v1 v2 : string) :
  attr_update (attr_update l a v1) a v2 = attr_update l a v2.
Proof.
  induction l as [|[k x] l IH]; simpl.
  - now rewrite String.eqb_refl.
  - destruct (String.eqb k a) eqn:E; simpl; rewrite E; [reflexivity|]. now rewrite IH.
Qed.

Lemma set_attr_twice (e : element) (a v1 v2 : string) :
  set_attr (set_attr e a v1) a v2 = set_attr e a v2.
Proof. unfold set_attr. simpl. now rewrite attr_update_twice. Qed.

Lemma scan_from_local new_URL baseUrl sel attr i els k u a :
  In (ElemRes k u a) (scan_from new_URL baseUrl sel attr i els) ->
  isLocalResource new_URL baseUrl u = true.
Proof.
  revert i. induction els as [|e els IH]; intros i H; simpl in H; [contradiction|].
  destruct (sel e); [|eauto].
  destruct (get_attr e attr) as [v|]; [|eauto].
  destruct (negb (String.eqb v "") && isLocalResource new_URL baseUrl v) eqn:E; [|eauto].
  destruct H as [H|H]; [|eauto].
  injection H as _ <- _. apply andb_prop in E. tauto.
Qed.

Lemma scan_from_elem new_URL baseUrl sel attr i els r :
  In r (scan_from new_URL baseUrl sel attr i els) -> exists k u, r = ElemRes k u attr.
Proof.
  revert i. induction els as [|e els IH]; intros i H; simpl in H; [contradiction|].
  destruct (sel e); [|eauto].
  destruct (get_attr e attr) as [v|]; [|eauto].
  destruct (_ && _); [|eauto].
  destruct H as [<-|H]; eauto.
Qed.

(** Which selector picked an element, and with which attribute. *)
Lemma scan_resources2_spec new_URL dom baseUrl r :
  In r (scan_resources2 new_URL dom baseUrl) ->
  exists k u a e, r = ElemRes k u a /\ dom !! k = Some e /\ get_attr e a = Some u /\
    isLocalResource new_URL baseUrl u = true /\
    ((sel_img e = true /\ a = "src") \/ (sel_link e = true /\ a = "href") \/
     (sel_script e = true /\ a = "src")).
Proof.
  unfold scan_resources2, tagsToProcess2. rewrite in_flat_map.
  intros ([sel attr] & Hsel & Hin).
  destruct (scan_from_elem _ _ _ _ _ _ _ Hin) as (k & u & ->).
  pose proof (scan_from_local _ _ _ _ _ _ _ _ _ Hin) as Hl.
  apply scan_from_spec in Hin as (_ & _ & e & He & Hs & Hg).
  rewrite Nat.sub_0_r in He.
  exists k, u, attr, e. repeat split; try assumption.
  simpl in Hsel. destruct Hsel as [H|[H|[H|[]]]]; injection H as <- <-; auto.
Qed.

Lemma sel_exclusive (e : element) :
  (sel_img e = true -> sel_link e = false /\ sel_script e = false) /\
  (sel_link e = true -> sel_script e = false).
Proof.
  split.
  - intros Hi. apply sel_img_tag in Hi.
    split; [destruct (sel_link e) eqn:E; [apply sel_link_tag in E|reflexivity]
           |destruct (sel_script e) eqn:E; [apply sel_script_tag in E|reflexivity]];
      rewrite Hi in E; discriminate.
  - intros Hl. apply sel_link_tag in Hl.
    destruct (sel_script e) eqn:E; [apply sel_script_tag in E|reflexivity].
    rewrite Hl in E; discriminate.
Qed.

(** One element picked by two entries of the scan has one attribute. *)
Lemma selected_same_attr (e : element) (a a' : string) :
  ((sel_img e = true /\ a = "src") \/ (sel_link e = true /\ a = "href") \/
   (sel_script e = true /\ a = "src")) ->
  ((sel_img e = true /\ a' = "src") \/ (sel_link e = true /\ a' = "href") \/
   (sel_script e = true /\ a' = "src")) -> a = a'.
Proof.
  destruct (sel_exclusive e) as [H1 H2].
  intros [[Hi ->]|[[Hl ->]|[Hs ->]]] [[Hi' ->]|[[Hl' ->]|[Hs' ->]]]; try reflexivity;
    first [ destruct (H1 ltac:(assumption)) as [Ha Hb]; congruence
          | specialize (H2 ltac:(assumption)); congruence ].
Qed.

Lemma dr2_complete_keeps_files new_URL net rd p w w' r :
  dr2_complete new_URL net rd p w = (w', r) -> keeps_files w w'.
Proof.
  apply dr2_complete_pres;
    first [exact keeps_files_refl | exact keeps_files_trans | exact keeps_files_write
          | exact keeps_files_fs].
Qed.

Lemma task2_settle_keeps_files new_URL net rd rs ps dom i w w' r :
  task2_settle new_URL net rd rs ps dom i w = (w', r) -> keeps_files w w'.
Proof.
  apply task2_settle_pres;
    first [exact keeps_files_refl | exact keeps_files_trans | exact keeps_files_write
          | exact keeps_files_fs].
Qed.

(** A download that resolved with a file name wrote that file. *)
Lemma dr2_complete_some new_URL net rd p w w' f :
  dr2_complete new_URL net rd p w = (w', inr (Some f)) ->
  exists c, fs w' !! Path.join rd f = Some (File true c).
Proof.
  destruct p as [| |a]; simpl; unfold ret; try discriminate.
  unfold catch at 1, bind at 1.
  destruct (axios_settle net _ a w) as [w1 [e|data]]; [unfold ret; discriminate|].
  unfold bind at 1, generateFileName2_m.
  destruct (generateFileName2 new_URL a true) as [fn|]; unfold ret, throw; [|discriminate].
  unfold catch, bind.
  destruct (fs_writeFile (Path.join rd fn) data w1) as [w2 [e|[]]] eqn:Ew;
    unfold ret; [discriminate|].
  intros H. injection H as <- <-.
  unfold fs_writeFile in Ew. destruct (write_error (fs w1) _); [discriminate|].
  injection Ew as <-. cbn [fs set_fs]. rewrite lookup_insert_eq. eauto.
Qed.

Lemma rewrites_ok_init dom0 rd w : rewrites_ok dom0 rd w dom0.
Proof. split; [reflexivity|]. intros k. now left. Qed.

Lemma rewrites_ok_keep dom0 rd w w' dom :
  keeps_files w w' -> rewrites_ok dom0 rd w dom -> rewrites_ok dom0 rd w' dom.
Proof.
  intros Hk [Hl H]. split; [exact Hl|]. intros k.
  destruct (H k) as [E|(e & a & f & c & H0 & H1 & H2 & H3 & H4)]; [now left|].
  destruct (Hk _ _ H3) as [c' H3']. right. exists e, a, f, c'. auto.
Qed.

Lemma task2_settle_rewrites new_URL net html baseUrl rd ps dom i w w' dom' :
  let dom0 := cheerio_load html in
  task2_settle new_URL net rd (scan_resources2 new_URL dom0 baseUrl) ps dom i w = (w', inr dom') ->
  rewrites_ok dom0 rd w dom -> rewrites_ok dom0 rd w' dom'.
Proof.
  cbv zeta. intros H Hinv.
  pose proof (task2_settle_keeps_files _ _ _ _ _ _ _ _ _ _ H) as Hk.
  apply (rewrites_ok_keep _ _ w w') in Hinv; [|exact Hk].
  revert H. unfold task2_settle.
  destruct (scan_resources2 new_URL (cheerio_load html) baseUrl !! i) as [[|idx u a]|] eqn:Er;
    destruct (ps !! i) as [p|]; unfold ret; try (intros H; injection H as <- <-; exact Hinv).
  intros H. apply bind_inr in H as (w1 & fo & Hd & H).
  destruct fo as [f|]; [|injection H as <- <-; exact Hinv].
  destruct (String.eqb_spec f "") as [_|Hf]; [injection H as <- <-; exact Hinv|].
  injection H as <- <-.
  destruct (dr2_complete_some _ _ _ _ _ _ _ Hd) as [c Hc].
  apply list_elem_of_lookup_2, list_elem_of_In in Er.
  apply scan_resources2_spec in Er as (k & u' & a' & e & Heq & He & _ & _ & Hsel).
  injection Heq as <- <- <-.
  destruct Hinv as [Hl Hinv]. split; [rewrite set_attr_at_length; exact Hl|].
  intros k. destruct (Nat.eq_dec idx k) as [<-|Hne]; [|rewrite set_attr_at_ne by exact Hne; apply Hinv].
  right. exists e, a, f, c. split; [exact He|]. split; [|auto].
  destruct (Hinv idx) as [E|(e2 & a2 & f2 & c2 & He2 & E & _ & _ & Hsel2)].
  - rewrite <- E in He. now apply set_attr_at_eq.
  - rewrite He in He2. injection He2 as <-.
    rewrite (set_attr_at_eq _ _ _ _ _ E).
    rewrite (selected_same_attr e a2 a Hsel2 Hsel), set_attr_twice. reflexivity.
Qed.

Lemma foldM_task2_settle_rewrites new_URL net html baseUrl rd ps order :
  let dom0 := cheerio_load html in
  forall dom w w' dom',
  foldM (task2_settle new_URL net rd (scan_resources2 new_URL dom0 baseUrl) ps) order dom w
    = (w', inr dom') ->
  rewrites_ok dom0 rd w dom -> rewrites_ok dom0 rd w' dom'.
Proof.
  cbv zeta. induction order as [|i order IH]; intros dom w w' dom'; simpl.
  - unfold ret. intros H. injection H as <- <-. auto.
  - intros H Hinv. apply bind_inr in H as (w1 & dom1 & H1 & H).
    eapply IH; [exact H|]. eapply task2_settle_rewrites; eauto.
Qed.

(** X6: after the second [processHtml] the markup has as many elements
    as before, and each one is either unchanged or an [img], stylesheet
    [link] or [script] whose [src]/[href] is now
    ["<basename of resourcesDir>/<f>"] for a non-empty [f] written as a
    file at [resourcesDir/<f>]; no other element (an [<a>], say) ever
    changes. A stylesheet [link] has [rel] equal to "stylesheet" in any
    case, as css-select matches it in HTML. *)
Theorem processHtml2_rewrites_selected new_URL net html baseUrl rd order w w' dom' :
  processHtml2 new_URL net html baseUrl rd order w = (w', inr dom') ->
  rewrites_ok (cheerio_load html) rd w' dom'.
Proof.
  unfold processHtml2. intros H. apply bind_inr in H as (w1 & ps & _ & H).
  destruct (existsb is_rejected ps).
  - apply bind_inr in H as (w2 & dom2 & H2 & H). unfold ret in H. injection H as <- <-.
    eapply rewrites_ok_keep; [|apply rewrites_ok_init].
    eapply foldM_pres; [exact keeps_files_refl|exact keeps_files_trans| |exact H2].
    intros. eapply task2_settle_keeps_files; eauto.
  - eapply foldM_task2_settle_rewrites; [exact H|]. apply rewrites_ok_init.
Qed.

(** *** The rejection branch of the second [processHtml] *)

Lemma isLocalResource_resolves new_URL baseUrl u :
  isLocalResource new_URL baseUrl u = true ->
  exists v, new_URL_with_base new_URL u baseUrl = Some v.
Proof.
  unfold isLocalResource, new_URL_with_base.
  destruct (new_URL baseUrl None) as [b|]; [|discriminate].
  destruct (new_URL u (Some b)) as [v|]; [eauto|discriminate].
Qed.

Lemma task2_issue_resolved new_URL baseUrl u v w w' p :
  new_URL_with_base new_URL u baseUrl = Some v ->
  task2_issue new_URL baseUrl u w = (w', inr p) -> is_rejected p = false.
Proof.
  intros Hv. unfold task2_issue. rewrite Hv. unfold catch, bind, axios_issue, ret.
  destruct (new_URL (href v) None); intros H; injection H as _ <-; reflexivity.
Qed.

Lemma mapM_task2_issue_resolved new_URL baseUrl (rs : list resource) w w' ps :
  (forall r, In r rs -> exists v, new_URL_with_base new_URL (resource_url baseUrl r) baseUrl = Some v) ->
  mapM (fun r => task2_issue new_URL baseUrl (resource_url baseUrl r)) rs w = (w', inr ps) ->
  existsb is_rejected ps = false.
Proof.
  revert w w' ps. induction rs as [|r rs IH]; intros w w' ps Hall; simpl.
  - unfold ret. intros H. injection H as _ <-. reflexivity.
  - intros H. apply bind_inr in H as (w1 & p & H1 & H).
    apply bind_inr in H as (w2 & ps' & H2 & H). unfold ret in H. injection H as _ <-.
    destruct (Hall r (or_introl eq_refl)) as [v Hv].
    simpl. rewrite (task2_issue_resolved _ _ _ _ _ _ _ Hv H1).
    eapply IH; [|exact H2]. intros r' Hr'. apply Hall. now right.
Qed.

(** *** Requests of the first [downloadPage] *)

Lemma fs_access_world p w w1 :
  fs_access p w = (w1, inr tt) -> w1 = w.
Proof.
  unfold fs_access. destruct (access_error (fs w) p);
    intros H; injection H as <-; reflexivity.
Qed.

Lemma axios_get_reqs new_URL net v url w w' d :
  axios_get new_URL net v url w = (w', inr d) -> reqs w' = reqs w ++ [url].
Proof.
  unfold axios_get, bind, axios_issue. destruct (new_URL url None); [|discriminate].
  unfold axios_settle. destruct (net url) as [s d'|c m]; [destruct (v s)|];
    unfold ret, throw; intros H; injection H as <-; try discriminate; reflexivity.
Qed.

Lemma fs_writeFile_reqs p c w w' r : fs_writeFile p c w = (w', r) -> reqs w' = reqs w.
Proof.
  unfold fs_writeFile. destruct (write_error (fs w) p); intros H; injection H as <- _; reflexivity.
Qed.


Lemma bind_ext_inr {A B} (m : M A) (k1 k2 : A -> M B) w :
  (forall w' a, m w = (w', inr a) -> k1 a w' = k2 a w') -> bind m k1 w = bind m k2 w.
Proof. intros H. unfold bind. destruct (m w) as [w' [e|a]] eqn:E; [reflexivity|]. eauto. Qed.

(** *** Extra properties of the program *)

(** X2: a run of the second [downloadPage] that resolves has saved the
    page: it resolves with [outputDir/<core>.html] for the page's
    sanitized name [core]; the run checked the directory, fetched the page
    with status 200, created [outputDir/<core>_files] (present when
    [processHtml] starts), ran [processHtml] on the fetched markup, and
    wrote its result to that file, which holds it at the end next to the
    resources directory. *)
Theorem downloadPage2_saves_page new_URL net url outputDir order w w' p :
  downloadPage2 new_URL net url outputDir order w = (w', inr p) ->
  exists core w1 w2 w3 w4 data processed,
    generateFileName2 new_URL url false = Some (core +++ ".html") /\ sanitized core = true /\
    p = Path.join outputDir (core +++ ".html") /\
    fs_access outputDir w = (w1, inr tt) /\
    axios_get new_URL net (fun status => status =? 200) url w1 = (w2, inr data) /\
    net url = Http 200 data /\
    fs_mkdir_p (Path.join outputDir (core +++ "_files")) w2 = (w3, inr tt) /\
    (exists b, fs w3 !! Path.join outputDir (core +++ "_files") = Some (Dir b)) /\
    processHtml2 new_URL net data url (Path.join outputDir (core +++ "_files")) order w3
      = (w4, inr processed) /\
    fs_writeFile p (Doc processed) w4 = (w', inr tt) /\
    fs w' !! p = Some (File true (Doc processed)) /\
    (exists b, fs w' !! Path.join outputDir (core +++ "_files") = Some (Dir b)).
Proof.
  intros H. apply downloadPage2_success_inv in H
    as (name & w1 & w2 & w3 & w4 & data & processed & H1 & H2 & G & H3 & H4 & H5 & ->).
  pose proof G as (url' & core & Hu & Hs & Hn)%generateFileName2_sanitized.
  cbv iota in Hn. subst name.
  pose proof (sanitized_chars core Hs) as Hc.
  rewrite !replace_first_suffix, append_empty_r in * by exact Hc.
  assert (Hnet : net url = Http 200 data).
  { unfold axios_get, bind in H2. destruct (axios_issue new_URL url w1) as [w1' [e|[]]];
      [discriminate|].
    unfold axios_settle, throw, ret in H2.
    destruct (net url) as [s d|]; [|discriminate].
    destruct (s =? 200) eqn:Es; [|discriminate].
    apply Nat.eqb_eq in Es. subst s. congruence. }
  destruct (mkdirp_go_dir _ _ _ _ _ H3) as [b Hb].
  exists core, w1, w2, w3, w4, data, processed.
  split; [exact G|]. split; [exact Hs|]. split; [reflexivity|]. do 3 (split; [assumption|]).
  split; [assumption|]. split; [eauto|]. do 2 (split; [assumption|]). split.
  - unfold fs_writeFile in H5.
    destruct (write_error (fs w4) _); [discriminate|].
    injection H5 as <-. cbn [fs set_fs]. apply lookup_insert_eq.
  - exists b.
    eapply keeps_dirs_write; [exact H5|].
    eapply processHtml2_keeps_dirs; [exact H4|]. exact Hb.
Qed.


Lemma downloadPage2_saves_page_witness :
  exists w' p,
    downloadPage2 Whatwg.new_URL hexlet_net "https://ru.hexlet.io/courses" "/tmp/out" [0] w_out
      = (w', inr p) /\
    exists core w1 w2 w3 w4 data processed,
      generateFileName2 Whatwg.new_URL "https://ru.hexlet.io/courses" false
        = Some (core +++ ".html") /\ sanitized core = true /\
      p = Path.join "/tmp/out" (core +++ ".html") /\
      fs_access "/tmp/out" w_out = (w1, inr tt) /\
      axios_get Whatwg.new_URL hexlet_net (fun status => status =? 200)
        "https://ru.hexlet.io/courses" w1 = (w2, inr data) /\
      hexlet_net "https://ru.hexlet.io/courses" = Http 200 data /\
      fs_mkdir_p (Path.join "/tmp/out" (core +++ "_files")) w2 = (w3, inr tt) /\
      (exists b, fs w3 !! Path.join "/tmp/out" (core +++ "_files") = Some (Dir b)) /\
      processHtml2 Whatwg.new_URL hexlet_net data "https://ru.hexlet.io/courses"
        (Path.join "/tmp/out" (core +++ "_files")) [0] w3 = (w4, inr processed) /\
      fs_writeFile p (Doc processed) w4 = (w', inr tt) /\
      fs w' !! p = Some (File true (Doc processed)) /\
      (exists b, fs w' !! Path.join "/tmp/out" (core +++ "_files") = Some (Dir b)).
Proof.
  exists (fst (downloadPage2 Whatwg.new_URL hexlet_net "https://ru.hexlet.io/courses" "/tmp/out" [0] w_out)),
    "/tmp/out/ru-hexlet-io-courses.html".
  assert (E : downloadPage2 Whatwg.new_URL hexlet_net "https://ru.hexlet.io/courses" "/tmp/out" [0] w_out
    = (fst (downloadPage2 Whatwg.new_URL hexlet_net "https://ru.hexlet.io/courses" "/tmp/out" [0] w_out),
       inr "/tmp/out/ru-hexlet-io-courses.html")) by (vm_compute; reflexivity).
  split; [exact E|].
  exact (downloadPage2_saves_page Whatwg.new_URL hexlet_net "https://ru.hexlet.io/courses"
           "/tmp/out" [0] w_out _ _ E).
Defined.


Lemma downloadPage2_rejects_non_200_witness :
  exists code,
    downloadPage2 Whatwg.new_URL (status_net 404) "https://example.com/page" "/tmp/out" [] w_out =
    (mkWorld (fs w_out) (reqs w_out ++ ["https://example.com/page"]),
     inl (PageLoaderError2 ("Failed to download " +++ "https://example.com/page" +++
                            ": Request failed with status " +++ nat_to_string 404) code)) /\
    code <> "" /\
    (404 / 100 = 4 -> code = "ERR_BAD_REQUEST") /\
    (404 / 100 = 5 -> code = "ERR_BAD_RESPONSE").
Proof.
  apply (downloadPage2_rejects_non_200 Whatwg.new_URL (status_net 404) "https://example.com/page"
           "/tmp/out" [] w_out 404 (Doc [])); vm_compute; reflexivity.
Defined.


(** X4: whenever the second [downloadPage] rejects, the error is named
    ['Error'], has a non-empty [code] and no status, and its message is the
    host-resolution message (code ENOTFOUND) or starts with
    ["Failed to download <url>: "]. *)
Theorem downloadPage2_rejection_shape new_URL net url outputDir order w w' e :
  downloadPage2 new_URL net url outputDir order w = (w', inl e) ->
  e_name e = "Error" /\ e_status e = None /\
  (exists c, e_code e = Some c /\ c <> "") /\
  ((e_code e = Some "ENOTFOUND" /\
    e_message e = "Network error: could not resolve host for " +++ url) \/
   exists m, e_message e = "Failed to download " +++ url +++ ": " +++ m).
Proof.
  intros H. apply downloadPage2_rejects_inv in H as [e0 ->].
  apply downloadPage2_error_shape.
Qed.

Lemma downloadPage2_rejection_shape_witness :
  exists w' e,
    downloadPage2 Whatwg.new_URL (status_net 404) "https://example.com/page" "/tmp/out" [] w_out
      = (w', inl e) /\
    e_name e = "Error" /\ e_status e = None /\
    (exists c, e_code e = Some c /\ c <> "") /\
    ((e_code e = Some "ENOTFOUND" /\
      e_message e = "Network error: could not resolve host for " +++ "https://example.com/page") \/
     exists m, e_message e = "Failed to download " +++ "https://example.com/page" +++ ": " +++ m).
Proof.
  set (r := downloadPage2 Whatwg.new_URL (status_net 404) "https://example.com/page" "/tmp/out" [] w_out).
  set (e := PageLoaderError2 "Failed to download https://example.com/page: Request failed with status 404"
              "ERR_BAD_REQUEST").
  assert (E : r = (fst r, inl e)) by (subst r e; vm_compute; reflexivity).
  exists (fst r), e. split; [exact E|].
  exact (downloadPage2_rejection_shape Whatwg.new_URL (status_net 404) "https://example.com/page"
           "/tmp/out" [] w_out _ _ E).
Defined.

Lemma downloadPage2_checks_dir_first_witness :
  access_error (fs w_out) "/tmp/out/missing/" = Some "ENOENT" /\
  (("ENOENT" = "EACCES" /\
    downloadPage2 Whatwg.new_URL hexlet_net "https://ru.hexlet.io/courses" "/tmp/out/missing/" [0] w_out =
    (w_out, inl (PageLoaderError2 ("Failed to download " +++ "https://ru.hexlet.io/courses" +++
               ": Output directory is not writable: " +++ "/tmp/out/missing/") "EACCES"))) \/
   ("ENOENT" = "ENOENT" /\
    downloadPage2 Whatwg.new_URL hexlet_net "https://ru.hexlet.io/courses" "/tmp/out/missing/" [0] w_out =
    (w_out, inl (PageLoaderError2 ("Failed to download " +++ "https://ru.hexlet.io/courses" +++
               ": ENOENT: no such file or directory, access '" +++ "/tmp/out/missing/" +++ "'") "ENOENT"))) \/
   ("ENOENT" = "ENOTDIR" /\
    downloadPage2 Whatwg.new_URL hexlet_net "https://ru.hexlet.io/courses" "/tmp/out/missing/" [0] w_out =
    (w_out, inl (PageLoaderError2 ("Failed to download " +++ "https://ru.hexlet.io/courses" +++
               ": ENOTDIR: not a directory, access '" +++ "/tmp/out/missing/" +++ "'") "ENOTDIR")))).
Proof.
  split; [vm_compute; reflexivity|].
  apply (downloadPage2_checks_dir_first Whatwg.new_URL hexlet_net "https://ru.hexlet.io/courses"
           "/tmp/out/missing/" [0] w_out "ENOENT"). vm_compute. reflexivity.
Defined.

Lemma processHtml2_rewrites_selected_witness :
  exists w' dom',
    processHtml2 Whatwg.new_URL partial_net partial_page "https://example.com" "/tmp/out" [0; 1; 2] w_out
      = (w', inr dom') /\
    rewrites_ok (cheerio_load partial_page) "/tmp/out" w' dom'.
Proof.
  destruct (processHtml2 Whatwg.new_URL partial_net partial_page "https://example.com" "/tmp/out"
              [0; 1; 2] w_out) as [w' [e|dom']] eqn:E; [vm_compute in E; discriminate|].
  exists w', dom'. split; [reflexivity|].
  exact (processHtml2_rewrites_selected Whatwg.new_URL partial_net partial_page "https://example.com"
           "/tmp/out" [0; 1; 2] w_out w' dom' E).
Defined.

(** X7: the second [processHtml] never takes its [Promise.all] rejection
    branch: every scanned URL resolves against [baseUrl] ([isLocalResource]
    parsed it already), so it always returns the markup as the completed
    downloads rewrote it. *)
Theorem processHtml2_never_rejects_all new_URL net html baseUrl rd order w :
  processHtml2 new_URL net html baseUrl rd order w =
  (let dom := cheerio_load html in
   let resources := scan_resources2 new_URL dom baseUrl in
   let* pendings := mapM (fun r => task2_issue new_URL baseUrl (resource_url baseUrl r)) resources in
   foldM (task2_settle new_URL net rd resources pendings) order dom) w.
Proof.
  unfold processHtml2. cbv zeta. apply bind_ext_inr. intros w' ps H.
  rewrite (mapM_task2_issue_resolved new_URL baseUrl
             (scan_resources2 new_URL (cheerio_load html) baseUrl) w w' ps); [reflexivity| |exact H].
  intros r Hr. apply scan_resources2_spec in Hr as (k & u & a & e & -> & _ & _ & Hl & _).
  exact (isLocalResource_resolves _ _ _ Hl).
Qed.

(** X8: the second command-line handler prints the banner; on exit 0
    it prints the saved page [outputDir/<core>.html] and the resources
    directory [outputDir/<core>_files], both present afterwards; on exit 1
    it prints one error line whose message is the host-resolution message
    or starts with ["Failed to download <url>: "]. *)
Theorem cli_action2_output new_URL net url output order w w' r :
  cli_action2 new_URL net url output order w = (w', r) ->
  (cli_exit r = 0 /\ cli_stderr r = [] /\
   exists core, sanitized core = true /\
     cli_stdout r = ["Downloading " +++ url +++ "...";
                     String "010"%char ("Page successfully saved to: " +++ Path.join output (core +++ ".html"));
                     "Resources saved in: " +++ Path.join output (core +++ "_files")] /\
     (exists d, fs w' !! Path.join output (core +++ ".html") = Some (File true (Doc d))) /\
     (exists b, fs w' !! Path.join output (core +++ "_files") = Some (Dir b))) \/
  (cli_exit r = 1 /\ cli_stdout r = ["Downloading " +++ url +++ "..."] /\
   exists m, cli_stderr r = [String "010"%char ("Error: " +++ m)] /\
     (m = "Network error: could not resolve host for " +++ url \/
      exists m', m = "Failed to download " +++ url +++ ": " +++ m')).
Proof.
  unfold cli_action2.
  destruct (downloadPage2 new_URL net url output order w) as [w1 [e|p]] eqn:E;
    intros H; injection H as <- <-; cbn [cli_exit cli_stdout cli_stderr].
  - right. split; [reflexivity|]. split; [reflexivity|]. exists (e_message e). split; [reflexivity|].
    apply downloadPage2_rejects_inv in E as [e0 ->].
    destruct (downloadPage2_error_shape url output e0) as (_ & _ & _ & [[_ Hm]|Hm]); auto.
  - left. split; [reflexivity|]. split; [reflexivity|].
    apply downloadPage2_success_files in E as (core & _ & Hs & -> & Hf & Hd).
    exists core. split; [exact Hs|]. split; [|auto].
    rewrite cli_resources_dir_join by (apply sanitized_chars; exact Hs). reflexivity.
Qed.

Lemma cli_action2_output_witness :
  exists w' r,
    cli_action2 Whatwg.new_URL hexlet_net "https://ru.hexlet.io/courses" "/tmp/out" [0] w_out = (w', r) /\
    ((cli_exit r = 0 /\ cli_stderr r = [] /\
      exists core, sanitized core = true /\
        cli_stdout r = ["Downloading " +++ "https://ru.hexlet.io/courses" +++ "...";
                        String "010"%char ("Page successfully saved to: " +++ Path.join "/tmp/out" (core +++ ".html"));
                        "Resources saved in: " +++ Path.join "/tmp/out" (core +++ "_files")] /\
        (exists d, fs w' !! Path.join "/tmp/out" (core +++ ".html") = Some (File true (Doc d))) /\
        (exists b, fs w' !! Path.join "/tmp/out" (core +++ "_files") = Some (Dir b))) \/
     (cli_exit r = 1 /\ cli_stdout r = ["Downloading " +++ "https://ru.hexlet.io/courses" +++ "..."] /\
      exists m, cli_stderr r = [String "010"%char ("Error: " +++ m)] /\
        (m = "Network error: could not resolve host for " +++ "https://ru.hexlet.io/courses" \/
         exists m', m = "Failed to download " +++ "https://ru.hexlet.io/courses" +++ ": " +++ m'))).
Proof.
  set (x := cli_action2 Whatwg.new_URL hexlet_net "https://ru.hexlet.io/courses" "/tmp/out" [0] w_out).
  assert (E : x = (fst x, snd x)) by (destruct x; reflexivity).
  exists (fst x), (snd x). split; [exact E|].
  exact (cli_action2_output Whatwg.new_URL hexlet_net "https://ru.hexlet.io/courses" "/tmp/out" [0]
           w_out _ _ E).
Defined.

(** X11: the first command-line handler, on exit 0, prints one line: the
    path of the saved page [outputDir/<core>.html], a file afterwards; on
    exit 1 it prints nothing on standard output and one error message,
    the host-resolution message or one starting with
    ["Failed to download <url>: "]. *)
Theorem cli_action1_output new_URL net url output order w w' r :
  cli_action1 new_URL net url output order w = (w', r) ->
  (cli_exit r = 0 /\ cli_stderr r = [] /\
   exists core, sanitized core = true /\
     cli_stdout r = [Path.join output (core +++ ".html")] /\
     (exists d, fs w' !! Path.join output (core +++ ".html") = Some (File true (Doc d)))) \/
  (cli_exit r = 1 /\ cli_stdout r = [] /\
   exists m, cli_stderr r = [m] /\
     (m = "Network error: could not resolve host for " +++ url \/
      exists m', m = "Failed to download " +++ url +++ ": " +++ m')).
Proof.
  unfold cli_action1.
  destruct (downloadPage2 new_URL net url output order w) as [w1 [e|p]] eqn:E;
    intros H; injection H as <- <-; cbn [cli_exit cli_stdout cli_stderr].
  - right. split; [reflexivity|]. split; [reflexivity|]. exists (e_message e). split; [reflexivity|].
    apply downloadPage2_rejects_inv in E as [e0 ->].
    destruct (downloadPage2_error_shape url output e0) as (_ & _ & _ & [[_ Hm]|Hm]); auto.
  - left. split; [reflexivity|]. split; [reflexivity|].
    apply downloadPage2_success_files in E as (core & _ & Hs & -> & Hf & _).
    exists core. auto.
Qed.

Lemma cli_action1_output_witness :
  exists w' r,
    cli_action1 Whatwg.new_URL (status_net 404) "https://example.com/page" "/tmp/out" [] w_out = (w', r) /\
    ((cli_exit r = 0 /\ cli_stderr r = [] /\
      exists core, sanitized core = true /\
        cli_stdout r = [Path.join "/tmp/out" (core +++ ".html")] /\
        (exists d, fs w' !! Path.join "/tmp/out" (core +++ ".html") = Some (File true (Doc d)))) \/
     (cli_exit r = 1 /\ cli_stdout r = [] /\
      exists m, cli_stderr r = [m] /\
        (m = "Network error: could not resolve host for " +++ "https://example.com/page" \/
         exists m', m = "Failed to download " +++ "https://example.com/page" +++ ": " +++ m'))).
Proof.
  set (x := cli_action1 Whatwg.new_URL (status_net 404) "https://example.com/page" "/tmp/out" [] w_out).
  assert (E : x = (fst x, snd x)) by (destruct x; reflexivity).
  exists (fst x), (snd x). split; [exact E|].
  exact (cli_action1_output Whatwg.new_URL (status_net 404) "https://example.com/page" "/tmp/out" []
           w_out _ _ E).
Defined.

(** X9: when the page's host does not resolve (the GET fails with code
    ENOTFOUND), both versions of [downloadPage] reject after that one
    request, with the message "Network error: could not resolve host for
    <url>" and code ENOTFOUND; the second version does not add its
    ["Failed to download <url>: "] prefix there. *)
Theorem downloadPage_unresolved_host new_URL net url outputDir order w m
  (Hdir : match fs w !! outputDir with Some n => node_writable n | None => false end = true)
  (Hurl : match new_URL url None with Some _ => true | None => false end = true)
  (Hnet : net url = NetError "ENOTFOUND" m) :
  downloadPage new_URL net url outputDir order w =
  (mkWorld (fs w) (reqs w ++ [url]),
   inl (PageLoaderError ("Network error: could not resolve host for " +++ url) (Some "ENOTFOUND"))) /\
  downloadPage2 new_URL net url outputDir order w =
  (mkWorld (fs w) (reqs w ++ [url]),
   inl (PageLoaderError2 ("Network error: could not resolve host for " +++ url) "ENOTFOUND")).
Proof.
  split.
  - unfold downloadPage, catch, bind at 1.
    rewrite (fs_access_ok _ _ Hdir). unfold bind at 1. unfold axios_get, bind at 1, axios_issue.
    destruct (new_URL url None); [|discriminate].
    unfold axios_settle. rewrite Hnet. reflexivity.
  - unfold downloadPage2, catch, bind at 1.
    rewrite (fs_access_ok _ _ Hdir). unfold bind at 1. unfold axios_get, bind at 1, axios_issue.
    destruct (new_URL url None); [|discriminate].
    unfold axios_settle. rewrite Hnet. reflexivity.
Qed.

Lemma downloadPage_unresolved_host_witness :
  match fs w_out !! "/tmp/out" with Some n => node_writable n | None => false end = true /\
  downloadPage Whatwg.new_URL (fun _ => NetError "ENOTFOUND" "getaddrinfo ENOTFOUND nowhere.invalid")
    "https://nowhere.invalid/page" "/tmp/out" [] w_out =
  (mkWorld (fs w_out) (reqs w_out ++ ["https://nowhere.invalid/page"]),
   inl (PageLoaderError ("Network error: could not resolve host for " +++ "https://nowhere.invalid/page")
                        (Some "ENOTFOUND"))) /\
  downloadPage2 Whatwg.new_URL (fun _ => NetError "ENOTFOUND" "getaddrinfo ENOTFOUND nowhere.invalid")
    "https://nowhere.invalid/page" "/tmp/out" [] w_out =
  (mkWorld (fs w_out) (reqs w_out ++ ["https://nowhere.invalid/page"]),
   inl (PageLoaderError2 ("Network error: could not resolve host for " +++ "https://nowhere.invalid/page")
                         "ENOTFOUND")).
Proof.
  split; [vm_compute; reflexivity|].
  apply (downloadPage_unresolved_host Whatwg.new_URL
           (fun _ => NetError "ENOTFOUND" "getaddrinfo ENOTFOUND nowhere.invalid")
           "https://nowhere.invalid/page" "/tmp/out" [] w_out "getaddrinfo ENOTFOUND nowhere.invalid");
    vm_compute; reflexivity.
Defined.

(** X10: when the page URL ends in [.html], a successful run of the first
    [downloadPage] requests the page twice: first as the page, then again
    as its own first resource, at [new URL(url, url)]. *)
Theorem downloadPage_requests_html_page_twice new_URL net url outputDir order w w' v u
  (Hok : downloadPage new_URL net url outputDir order w = (w', inr v))
  (Hhtml : ends_with url ".html" = true)
  (Hu : new_URL_with_base new_URL url url = Some u)
  (Hp : match new_URL (href u) None with Some _ => true | None => false end = true) :
  exists rest, reqs w' = reqs w ++ url :: href u :: rest.
Proof.
  apply downloadPage_success_inv in Hok
    as (pageName & w1 & w2 & w3 & w4 & data & processed & H1 & H2 & _ & H3 & H4 & H5 & _).
  apply fs_access_world in H1 as ->.
  apply axios_get_reqs in H2.
  apply mkdirp_go_reqs in H3.
  apply fs_writeFile_reqs in H5.
  rewrite processHtml_run in H4. injection H4 as <- _. cbn [reqs] in H5.
  set (rd := resources_dir_of outputDir pageName) in H5.
  assert (Ht : exists fn fp, task_pending new_URL url rd MainPage = PIssued (href u) fn fp).
  { unfold task_pending, dr_prepare. cbn [resource_url]. rewrite Hu.
    unfold generateFileName. destruct (new_URL (href u) None) eqn:Eh; [|discriminate].
    cbn [negb]. destruct (ext_match (pathname u0)); cbv beta iota zeta; rewrite Eh;
      do 2 eexists; reflexivity. }
  destruct Ht as (fn & fp & Ht).
  unfold scan_resources in H5. rewrite Hhtml in H5. cbn [app] in H5.
  set (rest := flat_map (fun '(sel, attr) => scan_from new_URL url sel attr 0 (cheerio_load data))
                        tagsToProcess) in H5.
  change (issued_urls new_URL url rd (MainPage :: rest)) with
    (match task_pending new_URL url rd MainPage with PIssued a _ _ => [a] | PFailed => [] end
     ++ issued_urls new_URL url rd rest) in H5.
  rewrite Ht in H5.
  exists (issued_urls new_URL url rd rest).
  rewrite H5, H3, H2. rewrite <- app_assoc. reflexivity.
Qed.

Lemma downloadPage_requests_html_page_twice_witness :
  exists w' v u,
    downloadPage Whatwg.new_URL (status_net 200) "https://example.com/index.html" "/tmp/out" [0] w_out
      = (w', inr v) /\
    ends_with "https://example.com/index.html" ".html" = true /\
    new_URL_with_base Whatwg.new_URL "https://example.com/index.html" "https://example.com/index.html"
      = Some u /\
    (exists rest, reqs w' = reqs w_out ++ "https://example.com/index.html" :: href u :: rest).
Proof.
  set (x := downloadPage Whatwg.new_URL (status_net 200) "https://example.com/index.html" "/tmp/out" [0] w_out).
  set (y := new_URL_with_base Whatwg.new_URL "https://example.com/index.html" "https://example.com/index.html").
  set (v := match snd x with inr v => v | inl _ => JsString "" end).
  set (u := match y with Some u => u | None => mkURL "" false "" "" "" "" None None end).
  assert (E : x = (fst x, inr v)) by (subst x v; vm_compute; reflexivity).
  assert (Ey : y = Some u) by (subst y u; vm_compute; reflexivity).
  exists (fst x), v, u. split; [exact E|]. split; [vm_compute; reflexivity|]. split; [exact Ey|].
  apply (downloadPage_requests_html_page_twice Whatwg.new_URL (status_net 200)
           "https://example.com/index.html" "/tmp/out" [0] w_out (fst x) v u E
           ltac:(vm_compute; reflexivity) Ey).
  subst u y. vm_compute. reflexivity.
Defined.

(** *** The hosts the second module requests *)

Lemma task2_settle_reqs new_URL net rd rs ps dom i w w' r :
  task2_settle new_URL net rd rs ps dom i w = (w', r) -> reqs w' = reqs w.
Proof.
  apply (task2_settle_pres (fun w1 w2 => reqs w2 = reqs w1));
    first [ intros ?; reflexivity
          | intros ? ? ? H1 H2; congruence
          | exact fs_writeFile_reqs ].
Qed.

Lemma foldM_task2_settle_reqs new_URL net rd rs ps order dom w w' r :
  foldM (task2_settle new_URL net rd rs ps) order dom w = (w', r) -> reqs w' = reqs w.
Proof.
  apply (foldM_pres (fun w1 w2 => reqs w2 = reqs w1)).
  - intros ?; reflexivity.
  - intros ? ? ? H1 H2; congruence.
  - intros. eapply task2_settle_reqs; eauto.
Qed.

Lemma task2_issue_reqs new_URL baseUrl x w w' r :
  isLocalResource new_URL baseUrl x = true ->
  task2_issue new_URL baseUrl x w = (w', r) ->
  exists l, reqs w' = reqs w ++ l /\
    Forall (fun a => exists b u, new_URL baseUrl None = Some b /\ a = href u /\
                                 hostname u = hostname b) l.
Proof.
  unfold isLocalResource, task2_issue, new_URL_with_base.
  destruct (new_URL baseUrl None) as [b|] eqn:Eb; [|discriminate].
  destruct (new_URL x (Some b)) as [u|]; [|discriminate].
  intros Hh%String.eqb_eq. unfold catch, bind, axios_issue, ret.
  destruct (new_URL (href u) None); intros H; injection H as <- _; cbn [reqs].
  - exists [href u]. split; [reflexivity|]. constructor; [eauto|constructor].
  - exists []. split; [symmetry; apply app_nil_r|constructor].
Qed.

Lemma mapM_task2_issue_reqs new_URL baseUrl (rs : list resource) :
  (forall r, In r rs -> isLocalResource new_URL baseUrl (resource_url baseUrl r) = true) ->
  forall w w' res,
  mapM (fun r => task2_issue new_URL baseUrl (resource_url baseUrl r)) rs w = (w', res) ->
  exists l, reqs w' = reqs w ++ l /\
    Forall (fun a => exists b u, new_URL baseUrl None = Some b /\ a = href u /\
                                 hostname u = hostname b) l.
Proof.
  induction rs as [|r rs IH]; intros Hall w w' res; simpl.
  - unfold ret. intros H. injection H as <- _. exists []. split; [symmetry; apply app_nil_r|constructor].
  - unfold bind at 1.
    destruct (task2_issue new_URL baseUrl (resource_url baseUrl r) w) as [w1 [e|p]] eqn:E1;
      destruct (task2_issue_reqs _ _ _ _ _ _ (Hall r (or_introl eq_refl)) E1) as (l1 & Hl1 & Hf1).
    + intros H. injection H as <- _. eauto.
    + unfold bind at 1.
      destruct (mapM (fun r => task2_issue new_URL baseUrl (resource_url baseUrl r)) rs w1)
        as [w2 [e|ps]] eqn:E2;
        destruct (IH (fun r' Hr' => Hall r' (or_intror Hr')) _ _ _ E2) as (l2 & Hl2 & Hf2);
        unfold ret; intros H; injection H as <- _;
        exists (l1 ++ l2); (split; [rewrite Hl2, Hl1, app_assoc; reflexivity|
                                    apply Forall_app; split; assumption]).
Qed.

Lemma processHtml2_reqs new_URL net html baseUrl rd order w w' r :
  processHtml2 new_URL net html baseUrl rd order w = (w', r) ->
  exists l, reqs w' = reqs w ++ l /\
    Forall (fun a => exists b u, new_URL baseUrl None = Some b /\ a = href u /\
                                 hostname u = hostname b) l.
Proof.
  assert (Hloc : forall x, In x (scan_resources2 new_URL (cheerio_load html) baseUrl) ->
                   isLocalResource new_URL baseUrl (resource_url baseUrl x) = true).
  { intros x Hx. apply scan_resources2_spec in Hx as (k & u & a & e & -> & _ & _ & Hl & _).
    exact Hl. }
  unfold processHtml2, bind at 1.
  destruct (mapM _ _ w) as [w1 [e|ps]] eqn:E1;
    destruct (mapM_task2_issue_reqs _ _ _ Hloc _ _ _ E1) as (l & Hl & Hf).
  - intros H. injection H as <- _. eauto.
  - intros H. exists l. split; [|exact Hf]. rewrite <- Hl.
    destruct (existsb is_rejected ps).
    + unfold bind in H. destruct (foldM _ _ _ w1) as [w2 x] eqn:E2.
      apply foldM_task2_settle_reqs in E2. destruct x; unfold ret in H; injection H as <- _; exact E2.
    + eapply foldM_task2_settle_reqs. exact H.
Qed.

Lemma bind_cases {A B} (m : M A) (k : A -> M B) w w' r :
  bind m k w = (w', r) ->
  (exists e, m w = (w', inl e)) \/ (exists w1 a, m w = (w1, inr a) /\ k a w1 = (w', r)).
Proof. unfold bind. destruct (m w) as [w1 [e|a]]; intros H; [injection H as <- _|]; eauto. Qed.

Lemma fs_access_world_any p w w' r : fs_access p w = (w', r) -> w' = w.
Proof.
  unfold fs_access. destruct (access_error (fs w) p);
    intros H; injection H as <- _; reflexivity.
Qed.

Lemma axios_get_reqs_any new_URL net v url w w' r :
  axios_get new_URL net v url w = (w', r) -> reqs w' = reqs w \/ reqs w' = reqs w ++ [url].
Proof.
  unfold axios_get, bind, axios_issue. destruct (new_URL url None).
  - unfold axios_settle. destruct (net url) as [s d'|c m]; [destruct (v s)|];
      unfold ret, throw; intros H; injection H as <- _; right; reflexivity.
  - intros H. injection H as <- _. now left.
Qed.

Lemma generateFileName2_m_world new_URL u b w w' r : generateFileName2_m new_URL u b w = (w', r) -> w' = w.
Proof.
  unfold generateFileName2_m. destruct (generateFileName2 new_URL u b); unfold ret, throw;
    intros H; injection H as <- _; reflexivity.
Qed.

(** X12: a run of the second [downloadPage] calls [axios.get] not at all,
    or first with the page's URL and then only with URLs on the page's
    host ([new URL(src, url)] with the hostname of [new URL(url)]).
    Redirects axios follows within a call are not covered. *)
Theorem downloadPage2_axios_get_same_host new_URL net url outputDir order w w' r :
  downloadPage2 new_URL net url outputDir order w = (w', r) ->
  reqs w' = reqs w \/
  exists l, reqs w' = reqs w ++ url :: l /\
    Forall (fun a => exists b u, new_URL url None = Some b /\ a = href u /\
                                 hostname u = hostname b) l.
Proof.
  unfold downloadPage2, catch.
  match goal with |- context [match ?m w with _ => _ end] => destruct (m w) as [w1 x] eqn:E end.
  intros H. assert (Hw : w' = w1) by (destruct x; unfold throw in H; injection H as <- _; reflexivity).
  subst w'. clear H.
  apply bind_cases in E as [[e E]|(wa & [] & Ea & E)];
    [apply fs_access_world_any in E; subst w1; now left|].
  apply fs_access_world_any in Ea. subst wa.
  apply bind_cases in E as [[e E]|(wb & data & Eb & E)].
  { apply axios_get_reqs_any in E as [E|E]; [now left|].
    right. exists []. split; [now rewrite E|constructor]. }
  apply axios_get_reqs in Eb.
  apply bind_cases in E as [[e E]|(wc & name & Ec & E)].
  { apply generateFileName2_m_world in E. subst w1.
    right. exists []. split; [now rewrite Eb|constructor]. }
  apply generateFileName2_m_world in Ec. subst wc.
  apply bind_cases in E as [[e E]|(wd & [] & Ed & E)].
  { apply mkdirp_go_reqs in E. right. exists []. split; [now rewrite E, Eb|constructor]. }
  apply mkdirp_go_reqs in Ed.
  apply bind_cases in E as [[e E]|(we & processed & Ee & E)];
    [apply processHtml2_reqs in E as (l & Hl & Hf)|apply processHtml2_reqs in Ee as (l & Hl & Hf)].
  { right. exists l. split; [rewrite Hl, Ed, Eb, <- app_assoc; reflexivity|exact Hf]. }
  apply bind_cases in E as [[e E]|(wf & [] & Ef & E)].
  { apply fs_writeFile_reqs in E. right. exists l.
    split; [rewrite E, Hl, Ed, Eb, <- app_assoc; reflexivity|exact Hf]. }
  apply fs_writeFile_reqs in Ef. unfold ret in E. injection E as <- _.
  right. exists l. split; [rewrite Ef, Hl, Ed, Eb, <- app_assoc; reflexivity|exact Hf].
Qed.

Lemma downloadPage2_axios_get_same_host_witness :
  exists w' r,
    downloadPage2 Whatwg.new_URL hexlet_net "https://ru.hexlet.io/courses" "/tmp/out" [0] w_out
      = (w', r) /\
    (reqs w' = reqs w_out \/
     exists l, reqs w' = reqs w_out ++ "https://ru.hexlet.io/courses" :: l /\
       Forall (fun a => exists b u, Whatwg.new_URL "https://ru.hexlet.io/courses" None = Some b /\
                                    a = href u /\ hostname u = hostname b) l).
Proof.
  set (x := downloadPage2 Whatwg.new_URL hexlet_net "https://ru.hexlet.io/courses" "/tmp/out" [0] w_out).
  assert (E : x = (fst x, snd x)) by (destruct x; reflexivity).
  exists (fst x), (snd x). split; [exact E|].
  exact (downloadPage2_axios_get_same_host Whatwg.new_URL hexlet_net "https://ru.hexlet.io/courses"
           "/tmp/out" [0] w_out _ _ E).
Defined.
